(** * Verification of the git-log parser and histograms of yeesh

    Shallow embedding of [src/parser.rs] (the line-oriented state machine
    [parse] and its helpers) and of [src/histogram.rs] ([Histogram::new],
    [get_hour], [get_weekday]).

    Text is modelled as a sequence of characters ([list ascii]); the
    character classes of the regular expressions ([.], [\d], [\s]) and
    [str::trim] are taken on ASCII text. *)

From Stdlib Require Import List String Ascii Bool Arith Lia ZArith NArith.
Import ListNotations.

Open Scope list_scope.

Abbreviation length := List.length (only parsing).

(** ** Text *)

Definition str := list ascii.

(** A Rust string literal, as a character sequence. *)
Definition lstr (s : string) : str := list_ascii_of_string s.

Definition nl : ascii := Ascii.ascii_of_nat 10.

Definition is_ascii_digit (c : ascii) : bool :=
  let n := nat_of_ascii c in (48 <=? n) && (n <=? 57).

(** Whitespace for [\s] and [str::trim]: tab, line feed, vertical tab,
    form feed, carriage return and space. *)
Definition is_ascii_ws (c : ascii) : bool :=
  let n := nat_of_ascii c in ((9 <=? n) && (n <=? 13)) || (n =? 32).

(** [.] matches any character but a line feed. *)
Definition is_dot (c : ascii) : bool := negb (Ascii.eqb c nl).

(** [input.split("\n")]: the pieces between line feeds; the empty input
    gives one empty piece. *)
Fixpoint split_lines (s : str) : list str :=
  match s with
  | [] => [[]]
  | c :: s' =>
      if Ascii.eqb c nl then [] :: split_lines s'
      else match split_lines s' with
           | l :: ls => (c :: l) :: ls
           | [] => [[c]]
           end
  end.

(** The inverse of [split_lines]: lines joined by line feeds. *)
Fixpoint join_lines (ls : list str) : str :=
  match ls with
  | [] => []
  | [l] => l
  | l :: ls' => l ++ nl :: join_lines ls'
  end.

Fixpoint drop_ws (s : str) : str :=
  match s with
  | c :: s' => if is_ascii_ws c then drop_ws s' else s
  | [] => []
  end.

(** [str::trim]. *)
Definition trim (s : str) : str := rev (drop_ws (rev (drop_ws s))).

(** ** Regular expressions

    The [regex] crate finds the leftmost match and, among the matches that
    start there, the one a backtracking matcher finds first (greedy
    repetition tries the longest run first).  The six patterns of
    [parser.rs] use literals, a character class, greedy [+] over a class,
    greedy [?] over a literal, capture groups and the anchors [^] and [$]
    (without multi-line mode, [$] is the end of the text). *)

Inductive node : Type :=
| NLit (c : ascii)                  (* a literal character *)
| NCls (cl : ascii -> bool)         (* one character of a class: [\s] *)
| NPlus (cl : ascii -> bool)        (* greedy [cl+]: [\d+], [.+] *)
| NOpt (c : ascii)                  (* greedy [c?] *)
| NOpen (g : nat)                   (* start of capture group [g] *)
| NClose (g : nat)                  (* end of capture group [g] *)
| NBol                              (* [^] *)
| NEol.                             (* [$] *)

Definition regex := list node.

(** Capture slots: group number, start and end offsets. *)
Definition caps := list (nat * (nat * nat)).

Fixpoint close_group (g e : nat) (cs : caps) : caps :=
  match cs with
  | [] => []
  | (h, (b, e0)) :: cs' =>
      if h =? g then (h, (b, e)) :: cs' else (h, (b, e0)) :: close_group g e cs'
  end.

(** The length of the longest prefix of [s] whose characters are in [cl]. *)
Fixpoint run (cl : ascii -> bool) (s : str) : nat :=
  match s with
  | c :: s' => if cl c then S (run cl s') else 0
  | [] => 0
  end.

(** Try lengths [n], [n-1], ..., [1] and keep the first success. *)
Fixpoint try_lens {A} (f : nat -> option A) (n : nat) : option A :=
  match n with
  | 0 => None
  | S m => match f (S m) with Some r => Some r | None => try_lens f m end
  end.

(** Backtracking match of [rx] at offset [pos], [s] being the rest of the
    text from [pos]. *)
Fixpoint mt (rx : regex) (pos : nat) (s : str) (cs : caps) {struct rx}
  : option caps :=
  match rx with
  | [] => Some cs
  | NLit c :: rx' =>
      match s with
      | d :: s' => if Ascii.eqb c d then mt rx' (S pos) s' cs else None
      | [] => None
      end
  | NCls cl :: rx' =>
      match s with
      | d :: s' => if cl d then mt rx' (S pos) s' cs else None
      | [] => None
      end
  | NPlus cl :: rx' =>
      try_lens (fun k => mt rx' (pos + k) (skipn k s) cs) (run cl s)
  | NOpt c :: rx' =>
      match s with
      | d :: s' =>
          if Ascii.eqb c d then
            match mt rx' (S pos) s' cs with
            | Some r => Some r
            | None => mt rx' pos s cs
            end
          else mt rx' pos s cs
      | [] => mt rx' pos s cs
      end
  | NOpen g :: rx' => mt rx' pos s ((g, (pos, pos)) :: cs)
  | NClose g :: rx' => mt rx' pos s (close_group g pos cs)
  | NBol :: rx' => if pos =? 0 then mt rx' pos s cs else None
  | NEol :: rx' => match s with [] => mt rx' pos s cs | _ :: _ => None end
  end.

(** Leftmost-first search: the first start offset at which [rx] matches. *)
Fixpoint search_from (rx : regex) (pos : nat) (s : str) : option caps :=
  match mt rx pos s [] with
  | Some r => Some r
  | None =>
      match s with
      | [] => None
      | _ :: s' => search_from rx (S pos) s'
      end
  end.

(** [Regex::captures]. *)
Definition captures (rx : regex) (line : str) : option caps :=
  search_from rx 0 line.

Fixpoint lookup_group (g : nat) (cs : caps) : option (nat * nat) :=
  match cs with
  | [] => None
  | (h, be) :: cs' => if h =? g then Some be else lookup_group g cs'
  end.

(** [Captures::get(g)] followed by [as_str()]. *)
Definition get_group (line : str) (cs : caps) (g : nat) : option str :=
  match lookup_group g cs with
  | Some (b, e) => Some (firstn (e - b) (skipn b line))
  | None => None
  end.

Definition lits (s : string) : regex := map NLit (lstr s).

(** [r"^commit (.+)$"] *)
Definition HASH_REGEX : regex :=
  [NBol] ++ lits "commit " ++ [NOpen 1; NPlus is_dot; NClose 1; NEol].

(** [r"^Author: (.+) <(.+)>$"] *)
Definition AUTHOR_REGEX : regex :=
  [NBol] ++ lits "Author: " ++ [NOpen 1; NPlus is_dot; NClose 1]
  ++ lits " <" ++ [NOpen 2; NPlus is_dot; NClose 2] ++ lits ">" ++ [NEol].

(** [r"^Date:(.+)$"] *)
Definition DATE_REGEX : regex :=
  [NBol] ++ lits "Date:" ++ [NOpen 1; NPlus is_dot; NClose 1; NEol].

(** [r"(\d+) files? changed.+$"] *)
Definition FILES_REGEX : regex :=
  [NOpen 1; NPlus is_ascii_digit; NClose 1] ++ lits " file"
  ++ [NOpt "s"%char] ++ lits " changed" ++ [NPlus is_dot; NEol].

(** [r"\s(\d+) insertions?.+$"] *)
Definition INSERTS_REGEX : regex :=
  [NCls is_ascii_ws; NOpen 1; NPlus is_ascii_digit; NClose 1]
  ++ lits " insertion" ++ [NOpt "s"%char; NPlus is_dot; NEol].

(** [r"\s(\d+) deletions?.+$"] *)
Definition DELETES_REGEX : regex :=
  [NCls is_ascii_ws; NOpen 1; NPlus is_ascii_digit; NClose 1]
  ++ lits " deletion" ++ [NOpt "s"%char; NPlus is_dot; NEol].

(** ** Numbers and dates *)

Definition digit_value (c : ascii) : N := N.of_nat (nat_of_ascii c - 48).

Definition dec_value (s : str) : N :=
  fold_left (fun acc c => acc * 10 + digit_value c)%N s 0%N.

Definition U32_MAX : N := 4294967295.

(** [str::parse::<u32>]: an optional [+], then one or more decimal digits
    whose value fits in 32 bits. *)
Definition parse_u32 (s : str) : option N :=
  let ds := match s with
            | c :: r => if Ascii.eqb c "+"%char then r else s
            | [] => []
            end in
  match ds with
  | [] => None
  | _ :: _ =>
      if forallb is_ascii_digit ds then
        if (dec_value ds <=? U32_MAX)%N then Some (dec_value ds) else None
      else None
  end.

(** [time::PrimitiveDateTime] (nanoseconds are always 0 here). *)
Record PrimitiveDateTime : Type := mkDateTime {
  year : Z; month : nat; day : nat; hour : nat; minute : nat; second : nat
}.

Definition is_leap_year (y : Z) : bool :=
  (Z.rem y 4 =? 0)%Z && (negb (Z.rem y 100 =? 0)%Z || (Z.rem y 400 =? 0)%Z).

Definition days_in_month (y : Z) (m : nat) : nat :=
  match m with
  | 1 | 3 | 5 | 7 | 8 | 10 | 12 => 31
  | 4 | 6 | 9 | 11 => 30
  | 2 => if is_leap_year y then 29 else 28
  | _ => 0
  end.

(** Exactly [n] ASCII digits at the front of [s]. *)
Fixpoint take_digits (n : nat) (s : str) : option (nat * str) :=
  match n with
  | 0 => Some (0, s)
  | S n' =>
      match s with
      | c :: s' =>
          if is_ascii_digit c then
            match take_digits n' s' with
            | Some (v, r) => Some ((nat_of_ascii c - 48) * 10 ^ n' + v, r)
            | None => None
            end
          else None
      | [] => None
      end
  end.

Definition take_char (c : ascii) (s : str) : option str :=
  match s with
  | d :: s' => if Ascii.eqb c d then Some s' else None
  | [] => None
  end.

Definition valid_datetime (t : PrimitiveDateTime) : bool :=
  (-9999 <=? year t)%Z && (year t <=? 9999)%Z
  && (1 <=? month t) && (month t <=? 12)
  && (1 <=? day t) && (day t <=? days_in_month (year t) (month t))
  && (hour t <=? 23) && (minute t <=? 59) && (second t <=? 59).

(** [PrimitiveDateTime::parse(s, format)] of the [time] crate with the
    description [[year]-[month]-[day] [hour]:[minute]:[second]]: an optional
    sign and four year digits, two digits for each other component, the
    separators, no trailing characters, and a date and time that exist. *)
Definition parse_primitive (s : str) : option PrimitiveDateTime :=
  let '(neg, s0) :=
    match s with
    | c :: r =>
        if Ascii.eqb c "-"%char then (true, r)
        else if Ascii.eqb c "+"%char then (false, r) else (false, s)
    | [] => (false, s)
    end in
  match take_digits 4 s0 with
  | None => None
  | Some (y, s1) =>
  match take_char "-" s1 with
  | None => None
  | Some s2 =>
  match take_digits 2 s2 with
  | None => None
  | Some (mo, s3) =>
  match take_char "-" s3 with
  | None => None
  | Some s4 =>
  match take_digits 2 s4 with
  | None => None
  | Some (d, s5) =>
  match take_char " " s5 with
  | None => None
  | Some s6 =>
  match take_digits 2 s6 with
  | None => None
  | Some (h, s7) =>
  match take_char ":" s7 with
  | None => None
  | Some s8 =>
  match take_digits 2 s8 with
  | None => None
  | Some (mi, s9) =>
  match take_char ":" s9 with
  | None => None
  | Some s10 =>
  match take_digits 2 s10 with
  | None => None
  | Some (se, s11) =>
      match s11 with
      | _ :: _ => None
      | [] =>
          let t := mkDateTime (if neg then (- Z.of_nat y)%Z else Z.of_nat y)
                              mo d h mi se in
          if valid_datetime t then Some t else None
      end
  end end end end end end end end end end end.

(** ** Commits ([commit.rs] as [parser.rs] uses it) *)

Record Author : Type := Author_new { name : str; email : str }.

Record Commit : Type := mkCommit {
  hash : str; author : Author; date : PrimitiveDateTime;
  files : N; inserts : N; deletes : N
}.

(** [Commit::default()]: empty strings, the Unix epoch, zero stats. *)
Definition commit_default : Commit :=
  mkCommit [] (Author_new [] []) (mkDateTime 1970 1 1 0 0 0) 0 0 0.

Definition set_hash (c : Commit) (h : str) : Commit :=
  mkCommit h (author c) (date c) (files c) (inserts c) (deletes c).
Definition set_author (c : Commit) (a : Author) : Commit :=
  mkCommit (hash c) a (date c) (files c) (inserts c) (deletes c).
Definition set_date (c : Commit) (t : PrimitiveDateTime) : Commit :=
  mkCommit (hash c) (author c) t (files c) (inserts c) (deletes c).
Definition set_stats (c : Commit) (f i d : N) : Commit :=
  mkCommit (hash c) (author c) (date c) f i d.

(** ** Errors

    [parse] returns [anyhow::Result]; its errors are told apart by the
    context attached where they arise. *)

Inductive Field : Type := FHash | FAuthor | FDate | FStat.

Inductive ParseError : Type :=
| UnexpectedEndOfInput (f : Field)   (* [line.context(..)] on [None] *)
| NoMatch (rx : regex) (line : str)  (* [regex.captures(line).context(..)] *)
| MissingGroup (g : nat)             (* [captures.get(g).context(..)] *)
| BadDate (line : str).              (* [PrimitiveDateTime::parse(..).context(..)] *)

Inductive Result (A : Type) : Type :=
| Ok (a : A)
| Err (e : ParseError).
Arguments Ok {A} a.
Arguments Err {A} e.

Definition is_err {A} (r : Result A) : bool :=
  match r with Err _ => true | Ok _ => false end.

Definition unwrap_or_default (r : Result N) : N :=
  match r with Ok v => v | Err _ => 0%N end.

(** ** Helpers of [parser.rs] *)

Definition one_match (rx : regex) (line : str) : Result str :=
  match captures rx line with
  | None => Err (NoMatch rx line)
  | Some cs =>
      match get_group line cs 1 with
      | None => Err (MissingGroup 1)
      | Some v => Ok v
      end
  end.

Definition two_matches (rx : regex) (line : str) : Result (str * str) :=
  match captures rx line with
  | None => Err (NoMatch rx line)
  | Some cs =>
      match get_group line cs 1 with
      | None => Err (MissingGroup 1)
      | Some v1 =>
          match get_group line cs 2 with
          | None => Err (MissingGroup 2)
          | Some v2 => Ok (v1, v2)
          end
      end
  end.

Definition parse_hash (line : option str) : Result str :=
  match line with
  | None => Err (UnexpectedEndOfInput FHash)
  | Some l => one_match HASH_REGEX l
  end.

Definition parse_author (line : option str) : Result Author :=
  match line with
  | None => Err (UnexpectedEndOfInput FAuthor)
  | Some l =>
      match two_matches AUTHOR_REGEX l with
      | Err e => Err e
      | Ok (n, e) => Ok (Author_new n e)
      end
  end.

Definition parse_date (line : option str) : Result PrimitiveDateTime :=
  match line with
  | None => Err (UnexpectedEndOfInput FDate)
  | Some l =>
      match one_match DATE_REGEX l with
      | Err e => Err e
      | Ok d =>
          match parse_primitive (trim d) with
          | None => Err (BadDate l)
          | Some t => Ok t
          end
      end
  end.

Definition parse_stat (rx : regex) (line : option str) : Result N :=
  match line with
  | None => Err (UnexpectedEndOfInput FStat)
  | Some l =>
      match one_match rx l with
      | Err e => Err e
      | Ok s => Ok (match parse_u32 s with Some v => v | None => 0%N end)
      end
  end.

(** ** The state machine of [parse] *)

Module State.
Inductive t : Type := Start | Hash | Author | Date | Stats | Accept.
End State.

(** The variables of the loop: [state], [commit], the rest of the
    [Peekable] line iterator, and [result]. *)
Record config : Type := mkConfig {
  state : State.t; commit : Commit; lines : list str; result : list Commit
}.

(** [lines.next()]: the exhausted iterator keeps answering [None]. *)
Definition next (ls : list str) : option str * list str :=
  match ls with
  | [] => (None, [])
  | l :: ls' => (Some l, ls')
  end.

(** What one turn of [loop] does: go round again, [break], or return an
    error through [?]. *)
Inductive step_out : Type :=
| Continue (c : config)
| Break (res : list Commit)
| Fail (e : ParseError).

Definition step (c : config) : step_out :=
  let cm := commit c in
  let acc := result c in
  match state c with
  | State.Start =>
      match lines c with
      | [] => Break acc
      | l :: ls' =>
          if (List.length (trim l) =? 0) then Continue (mkConfig State.Start cm ls' acc)
          else Continue (mkConfig State.Hash cm (lines c) acc)
      end
  | State.Hash =>
      let '(line, ls') := next (lines c) in
      match parse_hash line with
      | Err e => Fail e
      | Ok h => Continue (mkConfig State.Author (set_hash cm h) ls' acc)
      end
  | State.Author =>
      let '(line, ls') := next (lines c) in
      match parse_author line with
      | Err e => Fail e
      | Ok a => Continue (mkConfig State.Date (set_author cm a) ls' acc)
      end
  | State.Date =>
      let '(line, ls') := next (lines c) in
      match parse_date line with
      | Err e => Fail e
      | Ok t => Continue (mkConfig State.Stats (set_date cm t) ls' acc)
      end
  | State.Stats =>
      let '(line, ls') := next (lines c) in
      let fs := parse_stat FILES_REGEX line in
      let is := parse_stat INSERTS_REGEX line in
      let ds := parse_stat DELETES_REGEX line in
      if is_err fs && is_err is && is_err ds then
        Continue (mkConfig State.Stats cm ls' acc)
      else
        Continue (mkConfig State.Accept
                    (set_stats cm (unwrap_or_default fs) (unwrap_or_default is)
                       (unwrap_or_default ds)) ls' acc)
  | State.Accept => Continue (mkConfig State.Start cm (lines c) (acc ++ [cm]))
  end.

(** The configuration [parse] enters its loop with: state [Hash], a default
    commit, the lines of the input, no result yet. *)
Definition init (input : str) : config :=
  mkConfig State.Hash commit_default (split_lines input) [].

(** [runs_to c r]: the loop started in [c] stops, with [r] as the value of
    [parse]. *)
Inductive runs_to : config -> Result (list Commit) -> Prop :=
| runs_break c acc : step c = Break acc -> runs_to c (Ok acc)
| runs_fail c e : step c = Fail e -> runs_to c (Err e)
| runs_continue c c' r : step c = Continue c' -> runs_to c' r -> runs_to c r.

(** [parse input] returns [r]. *)
Definition parse (input : str) (r : Result (list Commit)) : Prop :=
  runs_to (init input) r.

(** The loop run for at most [fuel] turns. *)
Fixpoint run_loop (fuel : nat) (c : config) : option (Result (list Commit)) :=
  match fuel with
  | 0 => None
  | S f =>
      match step c with
      | Break acc => Some (Ok acc)
      | Fail e => Some (Err e)
      | Continue c' => run_loop f c'
      end
  end.

(** A line on which none of the three stats patterns matches. *)
Definition non_stats (l : str) : bool :=
  is_err (parse_stat FILES_REGEX (Some l)) && is_err (parse_stat INSERTS_REGEX (Some l))
  && is_err (parse_stat DELETES_REGEX (Some l)).

(** A line the [Start] state skips: empty once trimmed. *)
Definition is_blank (l : str) : bool := List.length (trim l) =? 0.

(** An input given by its lines. *)
Definition text (ls : list string) : str := join_lines (map lstr ls).

(** A character sequence containing no space followed by [<]. *)
Definition no_space_lt (e : str) : Prop := forall a b, e <> a ++ lstr " <" ++ b.

(** [a] is a subsequence of [b]. *)
Inductive subseq {A : Type} : list A -> list A -> Prop :=
| subseq_nil l : subseq [] l
| subseq_take x a b : subseq a b -> subseq (x :: a) (x :: b)
| subseq_skip x a b : subseq a b -> subseq a (x :: b).

(** The line a commit's hash is read from. *)
Definition hash_line (c : Commit) : str := lstr "commit " ++ hash c.

(** What every commit of a successful parse satisfies. *)
Definition commit_ok (c : Commit) : Prop :=
  hash c <> [] /\ name (author c) <> [] /\ email (author c) <> []
  /\ valid_datetime (date c) = true
  /\ (files c <= U32_MAX)%N /\ (inserts c <= U32_MAX)%N /\ (deletes c <= U32_MAX)%N.

(** What holds of the commit under construction in each state. *)
Definition partial_ok (st : State.t) (cm : Commit) (acc : list Commit)
  (consumed : list str) : Prop :=
  match st with
  | State.Start | State.Hash => subseq (map hash_line acc) consumed
  | State.Author => hash cm <> [] /\ subseq (map hash_line (acc ++ [cm])) consumed
  | State.Date =>
      hash cm <> [] /\ name (author cm) <> [] /\ email (author cm) <> []
      /\ subseq (map hash_line (acc ++ [cm])) consumed
  | State.Stats =>
      hash cm <> [] /\ name (author cm) <> [] /\ email (author cm) <> []
      /\ valid_datetime (date cm) = true
      /\ subseq (map hash_line (acc ++ [cm])) consumed
  | State.Accept => commit_ok cm /\ subseq (map hash_line (acc ++ [cm])) consumed
  end.

Definition parse_inv (orig : list str) (c : config) : Prop :=
  exists consumed, consumed ++ lines c = orig /\ Forall commit_ok (result c)
                   /\ partial_ok (state c) (commit c) (result c) consumed.

(** ** [histogram.rs] *)
























(** ** git's summary line *)

(** The plural [s] of a count clause. *)
Definition plural (b : bool) : str := if b then lstr "s" else [].

(** [k] blanks. *)
Definition indent (k : nat) : str := repeat " "%char k.
(** A count clause of git's summary line, as [", 43 insertions(+)"]. *)
Definition clause (word sign : string) (o : option (str * bool)) : str :=
  match o with
  | None => []
  | Some (d, b) => lstr ", " ++ d ++ lstr word ++ plural b ++ lstr sign
  end.

(** The summary line [git log --stat] ends a commit with. *)
Definition stats_line (k : nat) (fd : str) (pf : bool) (ins del : option (str * bool))
  : str :=
  indent k ++ fd ++ lstr " file" ++ plural pf ++ lstr " changed"
  ++ clause " insertion" "(+)" ins ++ clause " deletion" "(-)" del.

(** A count clause that is present holds a number that fits in a [u32]. *)
Definition count_ok (o : option (str * bool)) : bool :=
  match o with
  | None => true
  | Some (d, _) => negb (List.length d =? 0) && forallb is_ascii_digit d
                   && (dec_value d <=? U32_MAX)%N
  end.

Definition count_value (o : option (str * bool)) : N :=
  match o with None => 0%N | Some (d, _) => dec_value d end.

Definition is_number (d : str) : bool :=
  negb (List.length d =? 0) && forallb is_ascii_digit d.

(** * Lemmas *)

(** ** Lines *)

Lemma eqb_nl_false (c : ascii) : c <> nl -> Ascii.eqb c nl = false.
Proof. intros H. apply Ascii.eqb_neq. exact H. Qed.

Lemma split_lines_single (l : str) : ~ In nl l -> split_lines l = [l].
Proof.
  induction l as [|c l IH]; intros Hn; [reflexivity|].
  simpl. rewrite eqb_nl_false by (intros ->; apply Hn; left; reflexivity).
  rewrite IH by (intros H; apply Hn; right; exact H). reflexivity.
Qed.

Lemma split_lines_app (l s : str) :
  ~ In nl l -> split_lines (l ++ nl :: s) = l :: split_lines s.
Proof.
  induction l as [|c l IH]; intros Hn.
  - reflexivity.
  - simpl. rewrite eqb_nl_false by (intros ->; apply Hn; left; reflexivity).
    rewrite IH by (intros H; apply Hn; right; exact H). reflexivity.
Qed.

Lemma split_join (ls : list str) :
  ls <> [] -> Forall (fun l => ~ In nl l) ls -> split_lines (join_lines ls) = ls.
Proof.
  induction ls as [|l ls IH]; intros Hne Hf; [congruence|].
  inversion Hf as [|? ? Hl Hls]; subst.
  destruct ls as [|l' ls'].
  - simpl. apply split_lines_single. exact Hl.
  - change (join_lines (l :: l' :: ls')) with (l ++ nl :: join_lines (l' :: ls')).
    rewrite split_lines_app by exact Hl. rewrite IH; [reflexivity|discriminate|exact Hls].
Qed.

(** ** The loop *)

Lemma runs_to_deterministic (c : config) (r1 r2 : Result (list Commit)) :
  runs_to c r1 -> runs_to c r2 -> r1 = r2.
Proof.
  intros H1. revert r2.
  induction H1 as [c acc Hs|c e Hs|c c' r Hs H IH]; intros r2 H2;
    inversion H2 as [c2 acc2 Hs2|c2 e2 Hs2|c2 c2' r2' Hs2 H2']; subst;
    rewrite Hs in Hs2; try discriminate.
  - injection Hs2 as ->. reflexivity.
  - injection Hs2 as ->. reflexivity.
  - injection Hs2 as <-. apply IH. exact H2'.
Qed.

Lemma runs_to_continue_inv (c c' : config) (r : Result (list Commit)) :
  step c = Continue c' -> runs_to c r -> runs_to c' r.
Proof.
  intros Hs H. inversion H as [? ? Hs2|? ? Hs2|? c2 ? Hs2 H2]; subst;
    rewrite Hs in Hs2; try discriminate.
  injection Hs2 as <-. exact H2.
Qed.

Lemma run_loop_sound (n : nat) (c : config) (r : Result (list Commit)) :
  run_loop n c = Some r -> runs_to c r.
Proof.
  revert c. induction n as [|n IH]; intros c H; [discriminate|].
  simpl in H. destruct (step c) as [c'|acc|e] eqn:Hs.
  - apply runs_continue with c'; [exact Hs|]. apply IH. exact H.
  - injection H as <-. apply runs_break. exact Hs.
  - injection H as <-. apply runs_fail. exact Hs.
Qed.

(** [parse] has at most one outcome; a bounded run computes it. *)
Lemma parse_of_run (input : str) (n : nat) (r : Result (list Commit)) :
  run_loop n (init input) = Some r ->
  forall r', parse input r' <-> r' = r.
Proof.
  intros H r'. split.
  - intros Hp. apply (runs_to_deterministic _ _ _ Hp). apply run_loop_sound with n.
    exact H.
  - intros ->. apply run_loop_sound with n. exact H.
Qed.

(** With no line left, the stats state goes round without end. *)
Lemma stats_exhausted_no_outcome (cm : Commit) (acc : list Commit) r :
  ~ runs_to (mkConfig State.Stats cm [] acc) r.
Proof.
  intros H. remember (mkConfig State.Stats cm [] acc) as c eqn:Ec.
  induction H as [c acc' Hs|c e Hs|c c' r Hs H IH]; subst; cbv in Hs;
    try discriminate.
  injection Hs as <-. apply IH. reflexivity.
Qed.

(** One turn does not look at the commits already collected. *)
Lemma step_result_indep (st : State.t) (cm : Commit) (ls : list str)
  (acc acc' : list Commit) :
  (forall e, step (mkConfig st cm ls acc) = Fail e ->
             step (mkConfig st cm ls acc') = Fail e) /\
  (forall st2 cm2 ls2 acc2,
      step (mkConfig st cm ls acc) = Continue (mkConfig st2 cm2 ls2 acc2) ->
      exists acc2', step (mkConfig st cm ls acc') = Continue (mkConfig st2 cm2 ls2 acc2')).
Proof.
  split.
  - intros e. destruct st; unfold step; simpl;
      repeat match goal with
             | |- context [match ?x with _ => _ end] => destruct x
             end; congruence.
  - intros st2 cm2 ls2 acc2. destruct st; unfold step; simpl;
      repeat match goal with
             | |- context [match ?x with _ => _ end] => destruct x
             end; intros H; try discriminate; injection H as <- <- <- <-; eexists;
      reflexivity.
Qed.

Lemma runs_to_err_result_indep (c : config) (e : ParseError) :
  runs_to c (Err e) -> forall acc', runs_to (mkConfig (state c) (commit c) (lines c) acc') (Err e).
Proof.
  intros H. remember (Err e) as r eqn:Er. revert e Er.
  induction H as [c acc Hs|c e0 Hs|c c' r Hs H IH]; intros e Er acc';
    [discriminate| |].
  - injection Er as ->. apply runs_fail. destruct c as [st cm ls acc].
    apply (proj1 (step_result_indep st cm ls acc acc')). exact Hs.
  - destruct c as [st cm ls acc]. destruct c' as [st2 cm2 ls2 acc2].
    destruct (proj2 (step_result_indep st cm ls acc acc') st2 cm2 ls2 acc2 Hs)
      as [acc2' Hs'].
    apply runs_continue with (mkConfig st2 cm2 ls2 acc2'); [exact Hs'|].
    apply (IH e Er acc2').
Qed.

(** ** The regular-expression matcher *)

Lemma skipn_length_app {A} (p s : list A) : skipn (length p) (p ++ s) = s.
Proof. induction p as [|x p IH]; [reflexivity|]. exact IH. Qed.

Lemma firstn_length_app {A} (p s : list A) : firstn (length p) (p ++ s) = p.
Proof. induction p as [|x p IH]; [reflexivity|]. simpl. rewrite IH. reflexivity. Qed.

Lemma try_lens_ext {A} (f g : nat -> option A) (n : nat) :
  (forall k, f k = g k) -> try_lens f n = try_lens g n.
Proof.
  intros H. induction n as [|n IH]; [reflexivity|]. simpl. rewrite H, IH. reflexivity.
Qed.

Lemma try_lens_some_inv {A} (f : nat -> option A) (n : nat) (r : A) :
  try_lens f n = Some r -> exists k, 1 <= k <= n /\ f k = Some r.
Proof.
  induction n as [|n IH]; simpl; [discriminate|].
  destruct (f (S n)) as [r'|] eqn:Hf.
  - intros [= <-]. exists (S n). split; [lia|exact Hf].
  - intros H. destruct (IH H) as [k [Hk Hfk]]. exists k. split; [lia|exact Hfk].
Qed.

Lemma try_lens_none {A} (f : nat -> option A) (n : nat) :
  (forall k, 1 <= k <= n -> f k = None) -> try_lens f n = None.
Proof.
  induction n as [|n IH]; intros H; [reflexivity|]. simpl.
  rewrite H by lia. apply IH. intros k Hk. apply H. lia.
Qed.

(** When the longest try fails and every shorter one fails, nothing matches;
    when the longest succeeds, it is the answer. *)
Lemma try_lens_top {A} (f : nat -> option A) (n : nat) :
  (forall k, 1 <= k < S n -> f k = None) -> try_lens f (S n) = f (S n).
Proof.
  intros H. simpl.
  destruct (f (S n)); [reflexivity|]. apply try_lens_none. intros k Hk. apply H. lia.
Qed.

Lemma run_le (cl : ascii -> bool) (s : str) : run cl s <= length s.
Proof.
  induction s as [|c s IH]; simpl; [lia|]. destruct (cl c); simpl; lia.
Qed.

Lemma run_forallb (cl : ascii -> bool) (s : str) :
  forallb cl s = true -> run cl s = length s.
Proof.
  induction s as [|c s IH]; simpl; [reflexivity|].
  intros H. apply andb_true_iff in H as [-> H]. rewrite IH by exact H. reflexivity.
Qed.

Lemma run_app_stop (cl : ascii -> bool) (p q : str) :
  forallb cl p = true -> (forall x q', q = x :: q' -> cl x = false) ->
  run cl (p ++ q) = length p.
Proof.
  intros Hp Hq. induction p as [|c p IH]; simpl.
  - destruct q as [|x q']; [reflexivity|]. simpl. rewrite (Hq x q' eq_refl).
    reflexivity.
  - simpl in Hp. apply andb_true_iff in Hp as [-> Hp]. rewrite IH by exact Hp.
    reflexivity.
Qed.

Lemma run_prefix_forallb (cl : ascii -> bool) (s : str) (k : nat) :
  k <= run cl s -> forallb cl (firstn k s) = true.
Proof.
  revert k. induction s as [|c s IH]; intros k Hk; simpl in *.
  - destruct k; reflexivity.
  - destruct k as [|k]; [reflexivity|]. destruct (cl c) eqn:Hc; [|lia].
    simpl. rewrite Hc. apply IH. lia.
Qed.

(** Inside a run, the next character is again in the class. *)
Lemma run_inside (cl : ascii -> bool) (s : str) (k : nat) :
  k < run cl s -> exists x s', skipn k s = x :: s' /\ cl x = true.
Proof.
  revert k. induction s as [|c s IH]; intros k Hk; simpl in *; [lia|].
  destruct (cl c) eqn:Hc; [|lia].
  destruct k as [|k]; [exists c, s; split; [reflexivity|exact Hc]|].
  apply IH. lia.
Qed.

Lemma mt_lits_app (p : str) (rx : regex) (pos : nat) (s : str) (cs : caps) :
  mt (map NLit p ++ rx) pos (p ++ s) cs = mt rx (pos + length p) s cs.
Proof.
  revert pos. induction p as [|c p IH]; intros pos; simpl.
  - rewrite Nat.add_0_r. reflexivity.
  - rewrite Ascii.eqb_refl, IH. f_equal. lia.
Qed.

Lemma mt_lits_inv (p : str) (rx : regex) (pos : nat) (s : str) (cs r : caps) :
  mt (map NLit p ++ rx) pos s cs = Some r ->
  exists s', s = p ++ s' /\ mt rx (pos + length p) s' cs = Some r.
Proof.
  revert pos s. induction p as [|c p IH]; intros pos s H; simpl in *.
  - exists s. rewrite Nat.add_0_r. split; [reflexivity|exact H].
  - destruct s as [|d s]; [discriminate|].
    destruct (Ascii.eqb c d) eqn:Hcd; [|discriminate].
    apply Ascii.eqb_eq in Hcd as <-.
    destruct (IH (S pos) s H) as [s' [-> H']]. exists s'. split; [reflexivity|].
    rewrite <- H'. f_equal. lia.
Qed.

Lemma mt_group_plus (g : nat) (cl : ascii -> bool) (rx : regex) (pos : nat)
  (s : str) (cs : caps) :
  mt (NOpen g :: NPlus cl :: NClose g :: rx) pos s cs =
  try_lens (fun k => mt rx (pos + k) (skipn k s) ((g, (pos, pos + k)) :: cs))
           (run cl s).
Proof.
  simpl. apply try_lens_ext. intros k. simpl. rewrite Nat.eqb_refl. reflexivity.
Qed.

Lemma mt_group_plus_eol (g : nat) (cl : ascii -> bool) (pos : nat) (s : str)
  (cs : caps) :
  s <> [] -> forallb cl s = true ->
  mt [NOpen g; NPlus cl; NClose g; NEol] pos s cs =
  Some ((g, (pos, pos + length s)) :: cs).
Proof.
  intros Hne Hs. rewrite mt_group_plus, run_forallb by exact Hs.
  destruct s as [|c s']; [congruence|].
  simpl. rewrite skipn_all. reflexivity.
Qed.

Lemma mt_group_plus_eol_inv (g : nat) (cl : ascii -> bool) (pos : nat) (s : str)
  (cs r : caps) :
  mt [NOpen g; NPlus cl; NClose g; NEol] pos s cs = Some r ->
  s <> [] /\ forallb cl s = true /\ r = (g, (pos, pos + length s)) :: cs.
Proof.
  rewrite mt_group_plus. intros H.
  destruct (try_lens_some_inv _ _ _ H) as [k [Hk Hm]].
  pose proof (run_le cl s) as Hle.
  destruct (skipn k s) as [|x s'] eqn:Hsk; [|discriminate].
  simpl in Hm. injection Hm as <-.
  assert (Hkl : length s <= k) by (apply skipn_all_iff; exact Hsk).
  assert (k = length s) as -> by lia.
  split; [destruct s; simpl in *; [lia|discriminate]|].
  split; [|reflexivity].
  rewrite <- (firstn_all s). apply run_prefix_forallb. lia.
Qed.

Lemma search_from_bol_later (rx : regex) (pos : nat) (s : str) :
  0 < pos -> search_from (NBol :: rx) pos s = None.
Proof.
  revert pos. induction s as [|c s IH]; intros pos Hp; simpl;
    (destruct (pos =? 0) eqn:E; [apply Nat.eqb_eq in E; lia|]); [reflexivity|].
  apply IH. lia.
Qed.

Lemma captures_bol (rx : regex) (s : str) :
  captures (NBol :: rx) s = mt rx 0 s [].
Proof.
  unfold captures. destruct s as [|c s]; simpl;
    destruct (mt rx 0 _ []); try reflexivity.
  apply search_from_bol_later. lia.
Qed.

Lemma forallb_is_dot (l : str) : forallb is_dot l = true <-> ~ In nl l.
Proof.
  induction l as [|c l IH]; simpl; [tauto|].
  rewrite andb_true_iff, IH. unfold is_dot. rewrite negb_true_iff.
  rewrite Ascii.eqb_neq. split; [intros [H1 H2] [->|H]; tauto|].
  intros H. split; [intros ->; apply H; left; reflexivity|intros H'; apply H; right; exact H'].
Qed.

Lemma try_lens_skip {A} (f : nat -> option A) (m n : nat) :
  m <= n -> (forall k, m < k <= n -> f k = None) -> try_lens f n = try_lens f m.
Proof.
  intros Hmn H. induction n as [|n IH].
  - assert (m = 0) as -> by lia. reflexivity.
  - destruct (Nat.eq_dec m (S n)) as [->|Hne]; [reflexivity|].
    simpl. rewrite H by lia. apply IH; [lia|]. intros k Hk. apply H. lia.
Qed.

Lemma try_lens_first_some {A} (f : nat -> option A) (n : nat) (r : A) :
  f (S n) = Some r -> try_lens f (S n) = Some r.
Proof. intros H. simpl. rewrite H. reflexivity. Qed.

Lemma try_lens_first_none {A} (f : nat -> option A) (n : nat) :
  f (S n) = None -> try_lens f (S n) = try_lens f n.
Proof. intros H. simpl. rewrite H. reflexivity. Qed.

Lemma mt_group_plus_lit_eol (g : nat) (cl : ascii -> bool) (c : ascii) (pos : nat)
  (e : str) (cs : caps) :
  e <> [] -> forallb cl e = true -> cl c = true ->
  mt [NOpen g; NPlus cl; NClose g; NLit c; NEol] pos (e ++ [c]) cs =
  Some ((g, (pos, pos + length e)) :: cs).
Proof.
  intros Hne He Hc. rewrite mt_group_plus.
  rewrite run_forallb by (rewrite forallb_app; simpl; rewrite He, Hc; reflexivity).
  replace (length (e ++ [c])) with (S (length e)) by (rewrite length_app; simpl; lia).
  rewrite try_lens_first_none.
  2:{ rewrite skipn_all2 by (rewrite length_app; simpl; lia). reflexivity. }
  destruct (length e) as [|m] eqn:Hl; [destruct e; simpl in Hl; congruence|].
  apply try_lens_first_some.
  rewrite <- Hl, skipn_length_app. simpl. rewrite Ascii.eqb_refl. reflexivity.
Qed.

Lemma mt_group_plus_lit_eol_inv (g : nat) (cl : ascii -> bool) (c : ascii)
  (pos : nat) (s : str) (cs r : caps) :
  mt [NOpen g; NPlus cl; NClose g; NLit c; NEol] pos s cs = Some r ->
  exists e, s = e ++ [c] /\ e <> [] /\ r = (g, (pos, pos + length e)) :: cs.
Proof.
  rewrite mt_group_plus. intros H.
  destruct (try_lens_some_inv _ _ _ H) as [k [Hk Hm]].
  pose proof (run_le cl s) as Hle.
  destruct (skipn k s) as [|x [|y t]] eqn:Hsk; simpl in Hm; try discriminate;
    destruct (Ascii.eqb c x) eqn:Hcx; try discriminate.
  apply Ascii.eqb_eq in Hcx as <-. injection Hm as <-.
  exists (firstn k s). rewrite <- Hsk, firstn_skipn.
  assert (Hl : length (firstn k s) = k) by (rewrite length_firstn; lia).
  split; [reflexivity|]. rewrite Hl. split; [|reflexivity].
  intros E. rewrite E in Hl. simpl in Hl. lia.
Qed.

Lemma get_group_one (line : str) (b e : nat) (rest : caps) :
  get_group line ((1, (b, e)) :: rest) 1 = Some (firstn (e - b) (skipn b line)).
Proof. reflexivity. Qed.

(** Rewrite [firstn n l] to [l] when [n] is the length of [l]. *)
Ltac firstn_full :=
  repeat match goal with
  | |- context [firstn ?n ?l] =>
      replace n with (length l) by (simpl; lia); rewrite firstn_all
  end.

Lemma hash_line_match (h : str) :
  h <> [] -> ~ In nl h -> one_match HASH_REGEX (lstr "commit " ++ h) = Ok h.
Proof.
  intros Hne Hn. unfold one_match, HASH_REGEX. cbn [app].
  rewrite captures_bol. unfold lits. rewrite mt_lits_app.
  rewrite mt_group_plus_eol by (try apply forallb_is_dot; assumption).
  rewrite get_group_one. simpl skipn. firstn_full. reflexivity.
Qed.

Lemma hash_line_inv (l h : str) :
  one_match HASH_REGEX l = Ok h -> l = lstr "commit " ++ h /\ h <> [] /\ ~ In nl h.
Proof.
  unfold one_match, HASH_REGEX. cbn [app]. rewrite captures_bol.
  destruct (mt _ 0 l []) as [r|] eqn:Hm; [|discriminate].
  unfold lits in Hm. apply mt_lits_inv in Hm as [s' [-> Hm]].
  apply mt_group_plus_eol_inv in Hm as [Hne [Hf ->]].
  rewrite get_group_one. intros [= <-]. simpl skipn. firstn_full.
  apply forallb_is_dot in Hf. auto.
Qed.

Lemma no_space_lt_suffix (e : str) (j : nat) (t : str) :
  no_space_lt e -> skipn j (e ++ lstr ">") <> lstr " <" ++ t.
Proof.
  intros He Hs.
  pose proof (firstn_skipn j (e ++ lstr ">")) as Hsplit. rewrite Hs in Hsplit.
  set (p := firstn j (e ++ lstr ">")) in Hsplit.
  destruct t as [|x t] using rev_ind.
  - change (p ++ [" "%char; "<"%char] ++ [] = e ++ [">"%char]) in Hsplit.
    rewrite app_nil_r in Hsplit.
    change (p ++ [" "%char] ++ ["<"%char] = e ++ [">"%char]) in Hsplit.
    rewrite app_assoc in Hsplit.
    apply app_inj_tail in Hsplit as [_ Hc]. discriminate.
  - change (p ++ lstr " <" ++ t ++ [x] = e ++ [">"%char]) in Hsplit.
    rewrite (app_assoc (lstr " <")), (app_assoc p) in Hsplit.
    apply app_inj_tail in Hsplit as [Hsplit _].
    apply (He p t). rewrite <- Hsplit. reflexivity.
Qed.

Lemma author_line_match (n e : str) :
  n <> [] -> ~ In nl n -> e <> [] -> ~ In nl e -> no_space_lt e ->
  two_matches AUTHOR_REGEX (lstr "Author: " ++ n ++ lstr " <" ++ e ++ lstr ">")
  = Ok (n, e).
Proof.
  intros Hn Hnn He Hen Hlt.
  apply forallb_is_dot in Hnn. apply forallb_is_dot in Hen.
  unfold two_matches, AUTHOR_REGEX. cbn [app]. rewrite captures_bol.
  unfold lits at 1. rewrite mt_lits_app. rewrite mt_group_plus.
  set (s := n ++ lstr " <" ++ e ++ lstr ">").
  assert (Hrun : run is_dot s = length n + S (S (S (length e)))).
  { rewrite run_forallb.
    - unfold s. rewrite !length_app. simpl. lia.
    - unfold s. rewrite !forallb_app, Hnn, Hen. reflexivity. }
  rewrite Hrun.
  rewrite (try_lens_skip _ (length n)); [| lia |].
  2:{ intros k Hk.
      destruct (mt (lits " <" ++ _) _ _ _) as [r|] eqn:Hm; [|reflexivity].
      unfold lits in Hm. apply mt_lits_inv in Hm as [t [Ht _]].
      unfold s in Ht. rewrite skipn_app in Ht.
      rewrite skipn_all2 in Ht by lia.
      destruct (k - length n) as [|j] eqn:Ej; [lia|].
      destruct j as [|j].
      - simpl in Ht. discriminate.
      - simpl in Ht. exfalso. apply (no_space_lt_suffix e j t Hlt). exact Ht. }
  change (0 + length (lstr "Author: ")) with 8.
  destruct (length n) as [|m] eqn:Hl; [destruct n; simpl in Hl; congruence|].
  rewrite (try_lens_first_some _ m
             [(2, (8 + S m + 2, 8 + S m + 2 + length e)); (1, (8, 8 + S m))]).
  2:{ cbv beta. rewrite <- Hl. unfold s. rewrite skipn_length_app.
      unfold lits at 1. rewrite mt_lits_app.
      change (lits ">" ++ [NEol]) with [NLit ">"%char; NEol].
      change (lstr ">") with [">"%char].
      rewrite mt_group_plus_lit_eol by (try assumption; reflexivity).
      simpl length. rewrite Hl. reflexivity. }
  unfold get_group. cbn [lookup_group Nat.eqb]. rewrite <- Hl. unfold s.
  replace (8 + length n - 8) with (length n) by lia.
  replace (8 + length n + 2 + length e - (8 + length n + 2)) with (length e) by lia.
  change (skipn 8 ?l) with (skipn (length (lstr "Author: ")) l).
  rewrite skipn_length_app, firstn_length_app.
  replace (8 + length n + 2) with (length (lstr "Author: " ++ n ++ lstr " <"))
    by (rewrite !length_app; simpl; lia).
  rewrite (app_assoc n (lstr " <") (e ++ lstr ">")).
  rewrite (app_assoc (lstr "Author: ") (n ++ lstr " <") (e ++ lstr ">")).
  rewrite skipn_length_app.
  rewrite firstn_length_app. reflexivity.
Qed.

Lemma firstn_nonempty {A} (k : nat) (l : list A) :
  1 <= k -> k <= length l -> firstn k l <> [].
Proof.
  intros H1 H2 E. apply (f_equal (@List.length A)) in E.
  rewrite length_firstn in E. simpl in E. lia.
Qed.

Lemma author_line_inv (l n e : str) :
  two_matches AUTHOR_REGEX l = Ok (n, e) -> n <> [] /\ e <> [].
Proof.
  unfold two_matches, AUTHOR_REGEX. cbn [app]. rewrite captures_bol.
  destruct (mt _ 0 l []) as [r|] eqn:Hm; [|discriminate].
  unfold lits at 1 in Hm. apply mt_lits_inv in Hm as [s' [-> Hm]].
  rewrite mt_group_plus in Hm. apply try_lens_some_inv in Hm as [k [Hk Hm]].
  unfold lits in Hm. apply mt_lits_inv in Hm as [s2 [Hs2 Hm]].
  change (map NLit (lstr ">") ++ [NEol]) with [NLit ">"%char; NEol] in Hm.
  apply mt_group_plus_lit_eol_inv in Hm as [e' [-> [He' ->]]].
  unfold get_group; cbn [lookup_group Nat.eqb].
  intros H.
  injection H as Hn He. pose proof (run_le is_dot s') as Hr.
  split.
  - rewrite <- Hn. apply firstn_nonempty; lia.
  - rewrite <- He.
    replace (skipn (k + 2) s') with (skipn 2 (skipn k s'))
      by (rewrite skipn_skipn; f_equal; lia).
    rewrite Hs2. change (skipn 2 (lstr " <" ++ e' ++ [">"%char])) with (e' ++ [">"%char]).
    replace (k + 2 + length e' - (k + 2)) with (length e') by lia.
    rewrite firstn_length_app. exact He'.
Qed.

(** ** Runs of the loop *)

Lemma runs_fail_iff (c : config) (e : ParseError) :
  step c = Fail e -> forall r, runs_to c r <-> r = Err e.
Proof.
  intros Hs r. split.
  - intros H. inversion H; subst; congruence.
  - intros ->. apply runs_fail. exact Hs.
Qed.

Lemma runs_break_iff (c : config) (acc : list Commit) :
  step c = Break acc -> forall r, runs_to c r <-> r = Ok acc.
Proof.
  intros Hs r. split.
  - intros H. inversion H; subst; congruence.
  - intros ->. apply runs_break. exact Hs.
Qed.

Lemma runs_step_iff (c c' : config) :
  step c = Continue c' -> forall r, runs_to c r <-> runs_to c' r.
Proof.
  intros Hs r. split.
  - apply runs_to_continue_inv. exact Hs.
  - apply runs_continue. exact Hs.
Qed.

Lemma stats_skip (cm : Commit) (ms ls : list str) (acc : list Commit) :
  Forall (fun l => non_stats l = true) ms ->
  forall r, runs_to (mkConfig State.Stats cm (ms ++ ls) acc) r <->
            runs_to (mkConfig State.Stats cm ls acc) r.
Proof.
  induction 1 as [|m ms Hm Hms IH]; intros r; [reflexivity|].
  rewrite <- IH. apply runs_step_iff.
  unfold non_stats in Hm. cbn [step state commit lines result next app].
  rewrite Hm. reflexivity.
Qed.

Lemma start_blanks (cm : Commit) (bl : list str) (acc : list Commit) :
  Forall (fun l => is_blank l = true) bl ->
  forall r, runs_to (mkConfig State.Start cm bl acc) r <-> r = Ok acc.
Proof.
  induction 1 as [|b bl Hb Hbl IH]; intros r.
  - apply runs_break_iff. reflexivity.
  - rewrite <- IH. apply runs_step_iff.
    unfold is_blank in Hb. cbn [step state commit lines result]. rewrite Hb. reflexivity.
Qed.

(** One record: the hash, author and date lines, lines that match no stats
    pattern, and a line that matches at least one. *)
Lemma record_runs (cm : Commit) (hl al dl sl : str) (ms rest : list str)
  (acc : list Commit) (h : str) (a : Author) (t : PrimitiveDateTime) :
  parse_hash (Some hl) = Ok h -> parse_author (Some al) = Ok a ->
  parse_date (Some dl) = Ok t ->
  Forall (fun l => non_stats l = true) ms -> non_stats sl = false ->
  let c := mkCommit h a t (unwrap_or_default (parse_stat FILES_REGEX (Some sl)))
             (unwrap_or_default (parse_stat INSERTS_REGEX (Some sl)))
             (unwrap_or_default (parse_stat DELETES_REGEX (Some sl))) in
  forall r, runs_to (mkConfig State.Hash cm (hl :: al :: dl :: ms ++ sl :: rest) acc) r
            <-> runs_to (mkConfig State.Start c rest (acc ++ [c])) r.
Proof.
  intros Hh Ha Hd Hms Hsl c r.
  rewrite (runs_step_iff _ (mkConfig State.Author (set_hash cm h) (al :: dl :: ms ++ sl :: rest) acc))
    by (cbn [step state commit lines result next]; rewrite Hh; reflexivity).
  rewrite (runs_step_iff _ (mkConfig State.Date (set_author (set_hash cm h) a) (dl :: ms ++ sl :: rest) acc))
    by (cbn [step state commit lines result next]; rewrite Ha; reflexivity).
  rewrite (runs_step_iff _ (mkConfig State.Stats (set_date (set_author (set_hash cm h) a) t) (ms ++ sl :: rest) acc))
    by (cbn [step state commit lines result next]; rewrite Hd; reflexivity).
  rewrite stats_skip by exact Hms.
  unfold non_stats in Hsl.
  rewrite (runs_step_iff _ (mkConfig State.Accept c rest acc))
    by (cbn [step state commit lines result next]; rewrite Hsl; reflexivity).
  apply runs_step_iff. reflexivity.
Qed.

Lemma parse_one_record (hl al dl sl : str) (ms bl : list str)
  (h : str) (a : Author) (t : PrimitiveDateTime) :
  Forall (fun l => ~ In nl l) (hl :: al :: dl :: ms ++ sl :: bl) ->
  parse_hash (Some hl) = Ok h -> parse_author (Some al) = Ok a ->
  parse_date (Some dl) = Ok t ->
  Forall (fun l => non_stats l = true) ms -> non_stats sl = false ->
  Forall (fun l => is_blank l = true) bl ->
  forall r, parse (join_lines (hl :: al :: dl :: ms ++ sl :: bl)) r <->
  r = Ok [mkCommit h a t (unwrap_or_default (parse_stat FILES_REGEX (Some sl)))
            (unwrap_or_default (parse_stat INSERTS_REGEX (Some sl)))
            (unwrap_or_default (parse_stat DELETES_REGEX (Some sl)))].
Proof.
  intros Hnl Hh Ha Hd Hms Hsl Hbl r. unfold parse, init.
  rewrite split_join by (exact Hnl || discriminate).
  rewrite (record_runs _ _ _ _ _ _ _ _ _ _ _ Hh Ha Hd Hms Hsl).
  apply start_blanks. exact Hbl.
Qed.

Lemma date_line_match (d : str) :
  d <> [] -> ~ In nl d -> one_match DATE_REGEX (lstr "Date:" ++ d) = Ok d.
Proof.
  intros Hne Hn. unfold one_match, DATE_REGEX. cbn [app].
  rewrite captures_bol. unfold lits. rewrite mt_lits_app.
  rewrite mt_group_plus_eol by (try apply forallb_is_dot; assumption).
  rewrite get_group_one. simpl skipn. firstn_full. reflexivity.
Qed.

Lemma date_line_nomatch (l : str) :
  firstn 5 l <> lstr "Date:" -> one_match DATE_REGEX l = Err (NoMatch DATE_REGEX l).
Proof.
  intros Hl. unfold one_match, DATE_REGEX. cbn [app].
  rewrite captures_bol.
  destruct (mt _ 0 l []) as [r|] eqn:Hm; [|reflexivity].
  unfold lits in Hm. apply mt_lits_inv in Hm as [s' [-> _]].
  exfalso. apply Hl. reflexivity.
Qed.

Lemma drop_ws_head (s : str) :
  match drop_ws s with c :: _ => is_ascii_ws c = false | [] => True end.
Proof.
  induction s as [|c s IH]; simpl; [exact I|].
  destruct (is_ascii_ws c) eqn:Hc; [exact IH|exact Hc].
Qed.

Lemma drop_ws_nil (s : str) : drop_ws s = [] -> forallb is_ascii_ws s = true.
Proof.
  induction s as [|c s IH]; simpl; [reflexivity|].
  destruct (is_ascii_ws c) eqn:Hc; [exact IH|discriminate].
Qed.

Lemma forallb_rev' (f : ascii -> bool) (s : str) : forallb f (rev s) = forallb f s.
Proof.
  induction s as [|c s IH]; simpl; [reflexivity|].
  rewrite forallb_app, IH. simpl. rewrite andb_true_r, andb_comm. reflexivity.
Qed.

Lemma trim_nil (s : str) : trim s = [] -> forallb is_ascii_ws s = true.
Proof.
  unfold trim. intros H.
  destruct (rev (drop_ws (rev (drop_ws s)))) eqn:E; [|discriminate].
  apply (f_equal (@rev ascii)) in E. rewrite rev_involutive in E. simpl in E.
  apply drop_ws_nil in E. rewrite forallb_rev' in E.
  pose proof (drop_ws_head s) as Hh.
  destruct (drop_ws s) as [|c s'] eqn:Ed.
  - apply drop_ws_nil. exact Ed.
  - simpl in E. apply andb_true_iff in E as [E _]. congruence.
Qed.

Lemma blank_hash_nomatch (l : str) :
  is_blank l = true -> one_match HASH_REGEX l = Err (NoMatch HASH_REGEX l).
Proof.
  unfold is_blank. intros Hb. apply Nat.eqb_eq, length_zero_iff_nil, trim_nil in Hb.
  unfold one_match, HASH_REGEX. cbn [app]. rewrite captures_bol.
  destruct (mt _ 0 l []) as [r|] eqn:Hm; [|reflexivity].
  unfold lits in Hm. apply mt_lits_inv in Hm as [s' [-> _]].
  discriminate.
Qed.

Lemma split_lines_cons (s : str) : exists l ls, split_lines s = l :: ls.
Proof.
  induction s as [|c s [l [ls IH]]]; simpl; [eexists _, _; reflexivity|].
  destruct (Ascii.eqb c nl); [eexists _, _; reflexivity|].
  rewrite IH. eexists _, _; reflexivity.
Qed.

(** ** The commits of a successful parse *)

Lemma subseq_snoc_r {A} (a b : list A) (x : A) : subseq a b -> subseq a (b ++ [x]).
Proof.
  induction 1 as [l|y a b H IH|y a b H IH]; simpl.
  - apply subseq_nil.
  - apply subseq_take. exact IH.
  - apply subseq_skip. exact IH.
Qed.

Lemma subseq_snoc {A} (a b : list A) (x : A) : subseq a b -> subseq (a ++ [x]) (b ++ [x]).
Proof.
  induction 1 as [l|y a b H IH|y a b H IH]; simpl.
  - induction l as [|z l IHl]; simpl; [apply subseq_take, subseq_nil|].
    apply subseq_skip. exact IHl.
  - apply subseq_take. exact IH.
  - apply subseq_skip. exact IH.
Qed.

Lemma parse_primitive_valid (s : str) (t : PrimitiveDateTime) :
  parse_primitive s = Some t -> valid_datetime t = true.
Proof.
  unfold parse_primitive.
  repeat match goal with
         | |- context [match ?x with _ => _ end] => destruct x eqn:?
         end; try discriminate.
  all: intros H; injection H as <-; assumption.
Qed.

Lemma parse_u32_bound (s : str) (v : N) : parse_u32 s = Some v -> (v <= U32_MAX)%N.
Proof.
  unfold parse_u32.
  repeat match goal with
         | |- context [match ?x with _ => _ end] => destruct x eqn:?
         end; try discriminate.
  all: intros H; injection H as <-; apply N.leb_le; assumption.
Qed.

Lemma stat_bound (rx : regex) (line : option str) :
  (unwrap_or_default (parse_stat rx line) <= U32_MAX)%N.
Proof.
  destruct line as [l|]; simpl; [|unfold U32_MAX; lia].
  destruct (one_match rx l) as [s|e]; simpl; [|unfold U32_MAX; lia].
  destruct (parse_u32 s) as [v|] eqn:E; [apply (parse_u32_bound s v E)|unfold U32_MAX; lia].
Qed.

Lemma map_hash_line_snoc (acc : list Commit) (c : Commit) :
  map hash_line (acc ++ [c]) = map hash_line acc ++ [hash_line c].
Proof. rewrite map_app. reflexivity. Qed.

Lemma parse_inv_step (orig : list str) (c c' : config) :
  step c = Continue c' -> parse_inv orig c -> parse_inv orig c'.
Proof.
  intros Hs [consumed [Hcons [Hacc Hp]]].
  destruct c as [st cm ls acc]; simpl in Hcons, Hacc, Hp.
  destruct st; destruct ls as [|l ls];
    cbn [step state commit lines result next] in Hs.
  - (* Start, no line *) discriminate.
  - (* Start *)
    destruct (List.length (trim l) =? 0); injection Hs as <-.
    + exists (consumed ++ [l]). simpl. rewrite <- app_assoc. split; [exact Hcons|].
      split; [exact Hacc|]. apply subseq_snoc_r. exact Hp.
    + exists consumed. simpl. auto.
  - discriminate.
  - (* Hash *)
    destruct (parse_hash (Some l)) as [h|e] eqn:E; [|discriminate]. injection Hs as <-.
    apply hash_line_inv in E as [El [Hh _]].
    exists (consumed ++ [l]). simpl. rewrite <- app_assoc. split; [exact Hcons|].
    split; [exact Hacc|]. split; [exact Hh|].
    rewrite map_hash_line_snoc.
    change (hash_line (set_hash cm h)) with (lstr "commit " ++ h). rewrite <- El.
    apply subseq_snoc. exact Hp.
  - discriminate.
  - (* Author *)
    destruct (parse_author (Some l)) as [a|e] eqn:E; [|discriminate]. injection Hs as <-.
    unfold parse_author in E.
    destruct (two_matches AUTHOR_REGEX l) as [[n e]|err] eqn:E2; [|discriminate].
    injection E as <-. apply author_line_inv in E2 as [Hn He].
    destruct Hp as [Hh Hsub].
    exists (consumed ++ [l]). simpl. rewrite <- app_assoc. split; [exact Hcons|].
    split; [exact Hacc|]. repeat split; try assumption.
    apply subseq_snoc_r. rewrite map_hash_line_snoc in *. exact Hsub.
  - discriminate.
  - (* Date *)
    destruct (parse_date (Some l)) as [t|e] eqn:E; [|discriminate]. injection Hs as <-.
    unfold parse_date in E.
    destruct (one_match DATE_REGEX l) as [d|err]; [|discriminate].
    destruct (parse_primitive (trim d)) as [t'|] eqn:Ep; [|discriminate].
    injection E as <-. apply parse_primitive_valid in Ep.
    destruct Hp as [Hh [Hn [He Hsub]]].
    exists (consumed ++ [l]). simpl. rewrite <- app_assoc. split; [exact Hcons|].
    split; [exact Hacc|]. repeat split; try assumption.
    apply subseq_snoc_r. rewrite map_hash_line_snoc in *. exact Hsub.
  - (* Stats, no line *)
    injection Hs as <-. exists consumed. simpl. auto.
  - (* Stats *)
    destruct (_ && _ && _); injection Hs as <-.
    + exists (consumed ++ [l]). simpl. rewrite <- app_assoc. split; [exact Hcons|].
      split; [exact Hacc|]. destruct Hp as [Hh [Hn [He [Hd Hsub]]]].
      repeat split; try assumption. apply subseq_snoc_r. rewrite map_hash_line_snoc in *. exact Hsub.
    + exists (consumed ++ [l]). simpl. rewrite <- app_assoc. split; [exact Hcons|].
      split; [exact Hacc|]. destruct Hp as [Hh [Hn [He [Hd Hsub]]]].
      split; [|apply subseq_snoc_r; rewrite map_hash_line_snoc in *; exact Hsub].
      unfold commit_ok; cbn [hash author date files inserts deletes set_stats].
      repeat split; try assumption;
        first [exact (stat_bound FILES_REGEX (Some l)) | exact (stat_bound INSERTS_REGEX (Some l))
              | exact (stat_bound DELETES_REGEX (Some l))].
  - (* Accept, no line *)
    injection Hs as <-. exists consumed. simpl. destruct Hp as [Hok Hsub].
    repeat split; try assumption. apply Forall_app. split; [exact Hacc|].
    apply Forall_cons; [exact Hok|apply Forall_nil].
  - (* Accept *)
    injection Hs as <-. exists consumed. simpl. destruct Hp as [Hok Hsub].
    repeat split; try assumption. apply Forall_app. split; [exact Hacc|].
    apply Forall_cons; [exact Hok|apply Forall_nil].
Qed.

Lemma parse_inv_result (orig : list str) (c : config) (r : Result (list Commit)) :
  runs_to c r -> parse_inv orig c ->
  forall cs, r = Ok cs -> Forall commit_ok cs /\ subseq (map hash_line cs) orig.
Proof.
  induction 1 as [c acc Hs|c e Hs|c c' r Hs H IH]; intros Hinv cs Er.
  - injection Er as <-. destruct c as [st cm ls acc0].
    destruct Hinv as [consumed [Hcons [Hacc Hp]]]; simpl in *.
    destruct st; destruct ls; cbn [step state commit lines result next] in Hs;
      try discriminate;
      repeat match goal with
             | H : context [match ?x with _ => _ end] |- _ => destruct x
             end; try discriminate.
    injection Hs as <-. rewrite app_nil_r in Hcons. subst. split; assumption.
  - discriminate.
  - apply IH; [|exact Er]. apply (parse_inv_step orig c c' Hs Hinv).
Qed.

(** ** Histograms *)











(** ** Stats lines *)

Lemma search_from_skip_app (rx : regex) (pos : nat) (u v : str) :
  (forall j, j < length u -> mt rx (pos + j) (skipn j u ++ v) [] = None) ->
  search_from rx pos (u ++ v) = search_from rx (pos + length u) v.
Proof.
  revert pos. induction u as [|c u IH]; intros pos H.
  - rewrite Nat.add_0_r. reflexivity.
  - change ((c :: u) ++ v) with (c :: (u ++ v)). simpl search_from.
    pose proof (H 0 ltac:(simpl; lia)) as H0. rewrite Nat.add_0_r in H0.
    simpl in H0. rewrite H0.
    rewrite IH.
    + simpl length. f_equal. lia.
    + intros j Hj. specialize (H (S j) ltac:(simpl; lia)).
      replace (pos + S j) with (S pos + j) in H by lia. exact H.
Qed.

Lemma search_from_hit (rx : regex) (pos : nat) (s : str) (r : caps) :
  mt rx pos s [] = Some r -> search_from rx pos s = Some r.
Proof. intros H. destruct s; simpl; rewrite H; reflexivity. Qed.

Lemma search_from_nil (rx : regex) (pos : nat) :
  search_from rx pos [] = mt rx pos [] [].
Proof. simpl. destruct (mt rx pos [] []); reflexivity. Qed.

Lemma run_app_zero (cl : ascii -> bool) (ds s : str) :
  forallb cl ds = true -> run cl s = 0 -> run cl (ds ++ s) = length ds.
Proof.
  induction ds as [|c ds IH]; simpl; [tauto|].
  intros H Hs. apply andb_true_iff in H as [-> H]. rewrite IH by assumption. reflexivity.
Qed.

Lemma mt_group_none (g : nat) (cl : ascii -> bool) (rx : regex) (pos : nat) (s : str)
  (cs : caps) :
  run cl s = 0 -> mt (NOpen g :: NPlus cl :: NClose g :: rx) pos s cs = None.
Proof. intros H. rewrite mt_group_plus, H. reflexivity. Qed.

(** A digit run followed by a literal that is not a digit: only the whole
    run can be the group. *)
Lemma mt_digits_lit (g : nat) (y : ascii) (rx : regex) (pos : nat) (ds s : str)
  (cs : caps) :
  ds <> [] -> forallb is_ascii_digit ds = true -> run is_ascii_digit s = 0 ->
  is_ascii_digit y = false ->
  mt (NOpen g :: NPlus is_ascii_digit :: NClose g :: NLit y :: rx) pos (ds ++ s) cs =
  mt (NLit y :: rx) (pos + length ds) s ((g, (pos, pos + length ds)) :: cs).
Proof.
  intros Hne Hds Hs Hy. rewrite mt_group_plus, run_app_zero by assumption.
  destruct (length ds) as [|m] eqn:Hl; [destruct ds; simpl in Hl; congruence|].
  rewrite try_lens_top.
  - rewrite <- Hl, skipn_length_app. reflexivity.
  - intros k Hk.
    assert (Hin : k < run is_ascii_digit ds) by (rewrite run_forallb by exact Hds; lia).
    destruct (run_inside _ _ _ Hin) as [x [t [Ht Hx]]].
    rewrite skipn_app. replace (k - length ds) with 0 by lia. rewrite Ht. simpl.
    destruct (Ascii.eqb y x) eqn:E; [|reflexivity].
    apply Ascii.eqb_eq in E. subst. congruence.
Qed.

Lemma is_number_spec (d : str) : is_number d = true -> d <> [] /\ forallb is_ascii_digit d = true.
Proof.
  unfold is_number. intros H. apply andb_true_iff in H as [H1 H2].
  split; [|exact H2]. intros ->. discriminate.
Qed.

Lemma digit_not_ws (x : ascii) : is_ascii_digit x = true -> is_ascii_ws x = false.
Proof.
  unfold is_ascii_digit, is_ascii_ws. intros H.
  apply andb_true_iff in H as [H1 H2]. apply Nat.leb_le in H1, H2.
  destruct (9 <=? nat_of_ascii x) eqn:E1, (nat_of_ascii x <=? 13) eqn:E2,
           (nat_of_ascii x =? 32) eqn:E3; simpl; try reflexivity;
  repeat match goal with
         | H : (_ =? _) = true |- _ => apply Nat.eqb_eq in H
         | H : (_ <=? _) = true |- _ => apply Nat.leb_le in H
         end; lia.
Qed.

Lemma search_from_cons_none (rx : regex) (pos : nat) (c : ascii) (s : str) :
  mt rx pos (c :: s) [] = None -> search_from rx pos (c :: s) = search_from rx (S pos) s.
Proof. intros H. simpl. rewrite H. reflexivity. Qed.

Lemma skipn_repeat' {A} (x : A) (j k : nat) : skipn j (repeat x k) = repeat x (k - j).
Proof.
  revert k. induction j as [|j IH]; intros [|k]; simpl; try reflexivity. apply IH.
Qed.

Lemma mt_cls_cons (cl : ascii -> bool) (r : regex) (pos : nat) (c : ascii) (s : str)
  (cs : caps) :
  mt (NCls cl :: r) pos (c :: s) cs = if cl c then mt r (S pos) s cs else None.
Proof. reflexivity. Qed.

Section Counted.
(** The shape of [INSERTS_REGEX] and [DELETES_REGEX]. *)
Variable y : ascii.
Variable rest : regex.
Hypothesis Hy : is_ascii_digit y = false.
Let rx := NCls is_ascii_ws :: NOpen 1 :: NPlus is_ascii_digit :: NClose 1 :: NLit y :: rest.

Lemma counted_not_ws (pos : nat) (x : ascii) (s : str) (cs : caps) :
  is_ascii_ws x = false -> mt rx pos (x :: s) cs = None.
Proof. intros H. unfold rx. simpl. rewrite H. reflexivity. Qed.

Lemma counted_skip_digits (pos : nat) (ds v : str) :
  forallb is_ascii_digit ds = true ->
  search_from rx pos (ds ++ v) = search_from rx (pos + length ds) v.
Proof.
  intros Hds. apply search_from_skip_app. intros j Hj.
  assert (Hin : j < run is_ascii_digit ds) by (rewrite run_forallb by exact Hds; lia).
  destruct (run_inside _ _ _ Hin) as [x [t [Ht Hx]]]. rewrite Ht.
  apply counted_not_ws. apply digit_not_ws. exact Hx.
Qed.

Lemma counted_skip_nodigit_app (pos : nat) (t x : str) :
  forallb (fun c => negb (is_ascii_digit c)) t = true -> run is_ascii_digit x = 0 ->
  search_from rx pos (t ++ x) = search_from rx (pos + length t) x.
Proof.
  revert pos. induction t as [|c t IH]; intros pos Ht Hx.
  - rewrite Nat.add_0_r. reflexivity.
  - simpl in Ht. apply andb_true_iff in Ht as [Hc Ht]. apply negb_true_iff in Hc.
    rewrite <- app_comm_cons, search_from_cons_none.
    + rewrite IH by assumption. f_equal. simpl. lia.
    + unfold rx. rewrite mt_cls_cons. destruct (is_ascii_ws c); [|reflexivity].
      apply mt_group_none. destruct t as [|c' t']; [exact Hx|].
      simpl in Ht |- *. apply andb_true_iff in Ht as [Hc' _]. apply negb_true_iff in Hc'.
      rewrite Hc'. reflexivity.
Qed.

(** After the indentation comes a number that is followed by something
    other than [rest]. *)
Lemma counted_skip_indent (pos k : nat) (fd w : str) :
  fd <> [] -> forallb is_ascii_digit fd = true -> run is_ascii_digit w = 0 ->
  (forall p cs, mt (NLit y :: rest) p w cs = None) ->
  search_from rx pos (indent k ++ fd ++ w) = search_from rx (pos + k) (fd ++ w).
Proof.
  intros Hne Hfd Hw Hr. unfold indent.
  rewrite search_from_skip_app, repeat_length; [reflexivity|].
  intros j Hj. rewrite repeat_length in Hj. rewrite skipn_repeat'.
  destruct (k - j) as [|m] eqn:E; [lia|]. simpl repeat.
  unfold rx. rewrite <- app_comm_cons, mt_cls_cons. replace (is_ascii_ws " "%char) with true by reflexivity.
  destruct m as [|m].
  - cbn [repeat app]. rewrite mt_digits_lit by assumption. apply Hr.
  - apply mt_group_none. reflexivity.
Qed.
End Counted.

Lemma mt_lit_cons (c : ascii) (r : regex) (pos : nat) (s : str) (cs : caps) :
  mt (NLit c :: r) pos (c :: s) cs = mt r (S pos) s cs.
Proof. simpl. rewrite Ascii.eqb_refl. reflexivity. Qed.

Lemma mt_opt_take (c : ascii) (r : regex) (pos : nat) (s : str) (cs x : caps) :
  mt r (S pos) s cs = Some x -> mt (NOpt c :: r) pos (c :: s) cs = Some x.
Proof. intros H. simpl. rewrite Ascii.eqb_refl, H. reflexivity. Qed.

Lemma mt_opt_skip (c d : ascii) (r : regex) (pos : nat) (s : str) (cs : caps) :
  Ascii.eqb c d = false -> mt (NOpt c :: r) pos (d :: s) cs = mt r pos (d :: s) cs.
Proof. intros H. simpl. rewrite H. reflexivity. Qed.

Lemma mt_dots_eol (pos : nat) (t : str) (cs : caps) :
  t <> [] -> ~ In nl t -> mt [NPlus is_dot; NEol] pos t cs = Some cs.
Proof.
  intros Hne Hn. apply forallb_is_dot in Hn.
  change (mt [NPlus is_dot; NEol] pos t cs)
    with (try_lens (fun k => mt [NEol] (pos + k) (skipn k t) cs) (run is_dot t)).
  rewrite run_forallb by exact Hn.
  destruct t as [|c t']; [congruence|].
  apply (try_lens_first_some _ (length t')). change (S (length t')) with (length (c :: t')). rewrite skipn_all. reflexivity.
Qed.

Lemma get_group_mid (u d v : str) :
  get_group (u ++ d ++ v) [(1, (length u, length u + length d))] 1 = Some d.
Proof.
  rewrite get_group_one. replace (length u + length d - length u) with (length d) by lia.
  rewrite skipn_length_app, firstn_length_app. reflexivity.
Qed.

Lemma one_match_mid (rx : regex) (u d v : str) (p q : nat) :
  captures rx (u ++ d ++ v) = Some [(1, (p, q))] -> p = length u -> q = length u + length d ->
  one_match rx (u ++ d ++ v) = Ok d.
Proof.
  intros H -> ->. unfold one_match. rewrite H, get_group_mid. reflexivity.
Qed.

Lemma is_number_no_nl (d : str) : is_number d = true -> ~ In nl d.
Proof.
  intros H. apply is_number_spec in H as [_ H]. apply forallb_is_dot.
  induction d as [|c d IH]; [reflexivity|]. simpl in *.
  apply andb_true_iff in H as [Hc H]. rewrite IH by exact H.
  destruct c as [[] [] [] [] [] [] [] []]; try discriminate; reflexivity.
Qed.

Lemma parse_u32_number (d : str) :
  is_number d = true -> (dec_value d <= U32_MAX)%N -> parse_u32 d = Some (dec_value d).
Proof.
  intros H Hle. pose proof (is_number_spec d H) as [Hne Hd].
  unfold parse_u32. destruct d as [|c r]; [congruence|].
  assert (Hc : Ascii.eqb c "+"%char = false).
  { simpl in Hd. apply andb_true_iff in Hd as [Hc _].
    destruct c as [[] [] [] [] [] [] [] []]; try discriminate; reflexivity. }
  rewrite Hc, Hd. apply N.leb_le in Hle. rewrite Hle. reflexivity.
Qed.

Section Clause.
(** [INSERTS_REGEX] and [DELETES_REGEX]: a blank, a number, a blank and the
    word [c0 :: w0]. *)
Variable c0 : ascii.
Variable w0 : str.
Let rest := NLit c0 :: map NLit w0 ++ [NOpt "s"%char; NPlus is_dot; NEol].
Let rx := NCls is_ascii_ws :: NOpen 1 :: NPlus is_ascii_digit :: NClose 1
          :: NLit " "%char :: rest.

Lemma clause_hit (p : nat) (d : str) (b : bool) (sign x : str) :
  is_number d = true -> sign <> [] -> Ascii.eqb "s"%char (hd "s"%char sign) = false ->
  ~ In nl (sign ++ x) ->
  search_from rx p (","%char :: " "%char :: d ++ " "%char :: c0 :: w0 ++ plural b ++ sign ++ x)
  = Some [(1, (S (S p), S (S p) + length d))].
Proof.
  intros Hd Hs Hs0 Hn. apply is_number_spec in Hd as [Hne Hd].
  rewrite search_from_cons_none by reflexivity.
  apply search_from_hit. unfold rx. rewrite mt_cls_cons.
  replace (is_ascii_ws " "%char) with true by reflexivity.
  rewrite mt_digits_lit by (assumption || reflexivity).
  rewrite mt_lit_cons. unfold rest. rewrite mt_lit_cons, mt_lits_app.
  destruct b.
  - cbn [plural lstr list_ascii_of_string app]. apply mt_opt_take.
    apply mt_dots_eol; [destruct sign; [congruence|discriminate]|exact Hn].
  - destruct sign as [|s0 sr]; [congruence|]. cbn [plural app].
    rewrite mt_opt_skip by exact Hs0. apply mt_dots_eol; [discriminate|exact Hn].
Qed.

Lemma clause_miss (p : nat) (d : str) (c1 : ascii) (w1 : str) (b : bool) (sign x : str) :
  is_number d = true -> Ascii.eqb c0 c1 = false ->
  forallb (fun c => negb (is_ascii_digit c)) (c1 :: w1 ++ plural b ++ sign) = true ->
  run is_ascii_digit x = 0 ->
  search_from rx p (","%char :: " "%char :: d ++ " "%char :: c1 :: w1 ++ plural b ++ sign ++ x)
  = search_from rx (p + length (","%char :: " "%char :: d ++ " "%char :: c1 :: w1
                                 ++ plural b ++ sign)) x.
Proof.
  intros Hd Hc Hnd Hx. apply is_number_spec in Hd as [Hne Hd].
  rewrite search_from_cons_none by reflexivity.
  change (" "%char :: d ++ " "%char :: c1 :: w1 ++ plural b ++ sign ++ x)
    with (indent 1 ++ d ++ " "%char :: c1 :: w1 ++ plural b ++ sign ++ x).
  unfold rx. rewrite counted_skip_indent; try assumption; try reflexivity.
  - rewrite counted_skip_digits by assumption.
    replace (" "%char :: c1 :: w1 ++ plural b ++ sign ++ x)
      with ((" "%char :: c1 :: w1 ++ plural b ++ sign) ++ x)
      by (simpl; rewrite <- !app_assoc; reflexivity).
    rewrite counted_skip_nodigit_app by assumption.
    f_equal. simpl. rewrite !length_app. simpl. rewrite !length_app. lia.
  - intros q cs. unfold rest. rewrite mt_lit_cons. simpl. rewrite Hc. reflexivity.
Qed.

Lemma files_prefix_skip (p k : nat) (fd : str) (pf : bool) (x : str) :
  is_number fd = true -> Ascii.eqb c0 "f"%char = false -> run is_ascii_digit x = 0 ->
  search_from rx p (indent k ++ fd ++ lstr " file" ++ plural pf ++ lstr " changed" ++ x)
  = search_from rx (p + length (indent k ++ fd ++ lstr " file" ++ plural pf
                                 ++ lstr " changed")) x.
Proof.
  intros Hd Hc Hx. apply is_number_spec in Hd as [Hne Hd].
  unfold rx. rewrite counted_skip_indent; try assumption; try reflexivity.
  - rewrite counted_skip_digits by assumption.
    rewrite (app_assoc (plural pf)), (app_assoc (lstr " file")).
    rewrite counted_skip_nodigit_app by (try assumption; destruct pf; reflexivity).
    f_equal. unfold indent. rewrite !length_app, repeat_length. lia.
  - intros q cs. unfold rest. simpl. rewrite Hc. reflexivity.
Qed.
End Clause.

Section ClauseNone.
Variable c0 : ascii.
Variable w0 : str.
Let rx := NCls is_ascii_ws :: NOpen 1 :: NPlus is_ascii_digit :: NClose 1
          :: NLit " "%char :: NLit c0 :: map NLit w0 ++ [NOpt "s"%char; NPlus is_dot; NEol].

End ClauseNone.

Lemma FILES_REGEX_eq :
  FILES_REGEX = NOpen 1 :: NPlus is_ascii_digit :: NClose 1 :: NLit " "%char
    :: map NLit (lstr "file") ++ NOpt "s"%char :: map NLit (lstr " changed")
    ++ [NPlus is_dot; NEol].
Proof. reflexivity. Qed.

Lemma INSERTS_REGEX_eq :
  INSERTS_REGEX = NCls is_ascii_ws :: NOpen 1 :: NPlus is_ascii_digit :: NClose 1
    :: NLit " "%char :: NLit "i"%char :: map NLit (lstr "nsertion")
    ++ [NOpt "s"%char; NPlus is_dot; NEol].
Proof. reflexivity. Qed.

Lemma DELETES_REGEX_eq :
  DELETES_REGEX = NCls is_ascii_ws :: NOpen 1 :: NPlus is_ascii_digit :: NClose 1
    :: NLit " "%char :: NLit "d"%char :: map NLit (lstr "eletion")
    ++ [NOpt "s"%char; NPlus is_dot; NEol].
Proof. reflexivity. Qed.

Lemma lstr_comma (x : str) : lstr ", " ++ x = ","%char :: " "%char :: x.
Proof. reflexivity. Qed.

Lemma lstr_insertion (x : str) :
  lstr " insertion" ++ x = " "%char :: "i"%char :: lstr "nsertion" ++ x.
Proof. reflexivity. Qed.

Lemma lstr_deletion (x : str) :
  lstr " deletion" ++ x = " "%char :: "d"%char :: lstr "eletion" ++ x.
Proof. reflexivity. Qed.

Lemma clause_some_app (word sign : string) (d : str) (b : bool) (x : str) :
  clause word sign (Some (d, b)) ++ x = lstr ", " ++ d ++ lstr word ++ plural b ++ lstr sign ++ x.
Proof. simpl. rewrite <- !app_assoc. reflexivity. Qed.

Lemma count_ok_number (d : str) (b : bool) :
  count_ok (Some (d, b)) = true -> is_number d = true /\ (dec_value d <= U32_MAX)%N.
Proof.
  simpl. intros H. apply andb_true_iff in H as [H1 H2]. split; [exact H1|].
  apply N.leb_le. exact H2.
Qed.

Lemma forallb_is_dot_number (d : str) : is_number d = true -> forallb is_dot d = true.
Proof. intros H. apply forallb_is_dot, is_number_no_nl, H. Qed.

Lemma clause_dots (word sign : string) (o : option (str * bool)) :
  count_ok o = true -> forallb is_dot (lstr word) = true -> forallb is_dot (lstr sign) = true ->
  forallb is_dot (clause word sign o) = true.
Proof.
  intros Ho Hw Hs. destruct o as [[d b]|]; [|reflexivity].
  apply count_ok_number in Ho as [Hd _]. unfold clause.
  rewrite !forallb_app, Hw, Hs, (forallb_is_dot_number d Hd).
  destruct b; reflexivity.
Qed.

Lemma files_skip_indent (pos k : nat) (s : str) :
  search_from FILES_REGEX pos (indent k ++ s) = search_from FILES_REGEX (pos + k) s.
Proof.
  unfold indent. rewrite search_from_skip_app, repeat_length; [reflexivity|].
  intros j Hj. rewrite repeat_length in Hj. rewrite skipn_repeat'.
  destruct (k - j) as [|m] eqn:E; [lia|].
  rewrite FILES_REGEX_eq. apply mt_group_none. reflexivity.
Qed.

Lemma files_hit (k : nat) (fd : str) (pf : bool) (tl : str) :
  is_number fd = true -> tl <> [] -> ~ In nl tl ->
  one_match FILES_REGEX (indent k ++ fd ++ lstr " file" ++ plural pf ++ lstr " changed" ++ tl)
  = Ok fd.
Proof.
  intros Hfd Htl Hn. apply is_number_spec in Hfd as [Hne Hd].
  apply (one_match_mid _ _ _ _ k (k + length fd));
    [|unfold indent; rewrite repeat_length; reflexivity
     |unfold indent; rewrite repeat_length; reflexivity].
  unfold captures. rewrite files_skip_indent. apply search_from_hit.
  rewrite FILES_REGEX_eq.
  change (lstr " file" ++ plural pf ++ lstr " changed" ++ tl)
    with (" "%char :: lstr "file" ++ plural pf ++ lstr " changed" ++ tl).
  rewrite mt_digits_lit by (assumption || reflexivity).
  rewrite mt_lit_cons, mt_lits_app. destruct pf.
  - change (plural true ++ lstr " changed" ++ tl) with ("s"%char :: lstr " changed" ++ tl).
    apply mt_opt_take. rewrite mt_lits_app. rewrite mt_dots_eol by assumption. reflexivity.
  - change (plural false ++ lstr " changed" ++ tl) with (" "%char :: lstr "changed" ++ tl).
    rewrite mt_opt_skip by reflexivity.
    change (" "%char :: lstr "changed" ++ tl) with (lstr " changed" ++ tl).
    rewrite mt_lits_app. rewrite mt_dots_eol by assumption. reflexivity.
Qed.




Lemma clause_run_zero (word sign : string) (o : option (str * bool)) (x : str) :
  run is_ascii_digit x = 0 -> run is_ascii_digit (clause word sign o ++ x) = 0.
Proof. intros H. destruct o as [[d b]|]; [reflexivity|exact H]. Qed.

Lemma inserts_of_stats_line (k : nat) (fd : str) (pf : bool) (ins del : option (str * bool)) :
  is_number fd = true -> count_ok ins = true -> count_ok del = true ->
  one_match INSERTS_REGEX (stats_line k fd pf ins del) =
  match ins with
  | Some (d, _) => Ok d
  | None => Err (NoMatch INSERTS_REGEX (stats_line k fd pf ins del))
  end.
Proof.
  intros Hfd Hi Hd. destruct ins as [[id pi]|].
  - pose proof (count_ok_number _ _ Hi) as [Hid _].
    set (U := indent k ++ fd ++ lstr " file" ++ plural pf ++ lstr " changed" ++ lstr ", ").
    assert (E : stats_line k fd pf (Some (id, pi)) del
                = U ++ id ++ lstr " insertion" ++ plural pi ++ lstr "(+)"
                  ++ clause " deletion" "(-)" del).
    { unfold stats_line, U. rewrite clause_some_app. rewrite <- !app_assoc. reflexivity. }
    rewrite E. apply (one_match_mid _ _ _ _ (length U) (length U + length id));
      [|reflexivity|reflexivity].
    rewrite <- E. unfold captures, stats_line. rewrite INSERTS_REGEX_eq.
    rewrite files_prefix_skip by (try assumption; try reflexivity).
    rewrite clause_some_app, lstr_comma, lstr_insertion.
    rewrite clause_hit.
    + repeat f_equal; unfold U; rewrite !length_app; simpl; lia.
    + exact Hid.
    + discriminate.
    + reflexivity.
    + apply forallb_is_dot. rewrite forallb_app.
      rewrite clause_dots by (try assumption; reflexivity). reflexivity.
  - unfold one_match, captures. unfold stats_line at 1. rewrite INSERTS_REGEX_eq.
    rewrite files_prefix_skip by (try assumption; try reflexivity;
                                  apply clause_run_zero; destruct del as [[? ?]|]; reflexivity).
    cbn [clause app]. destruct del as [[dd pd]|]; [|reflexivity].
    pose proof (count_ok_number _ _ Hd) as [Hdd _].
    unfold clause. rewrite lstr_comma, lstr_deletion, <- (app_nil_r (lstr "(-)")).
    rewrite clause_miss.
    + reflexivity.
    + exact Hdd.
    + reflexivity.
    + destruct pd; reflexivity.
    + reflexivity.
Qed.

Lemma deletes_of_stats_line (k : nat) (fd : str) (pf : bool) (ins del : option (str * bool)) :
  is_number fd = true -> count_ok ins = true -> count_ok del = true ->
  one_match DELETES_REGEX (stats_line k fd pf ins del) =
  match del with
  | Some (d, _) => Ok d
  | None => Err (NoMatch DELETES_REGEX (stats_line k fd pf ins del))
  end.
Proof.
  intros Hfd Hi Hd.
  assert (Hskip : forall x, run is_ascii_digit x = 0 ->
            search_from DELETES_REGEX
              (length (indent k ++ fd ++ lstr " file" ++ plural pf ++ lstr " changed"))
              (clause " insertion" "(+)" ins ++ x)
            = search_from DELETES_REGEX
                (length (indent k ++ fd ++ lstr " file" ++ plural pf ++ lstr " changed"
                         ++ clause " insertion" "(+)" ins)) x).
  { intros x Hx. destruct ins as [[id pi]|].
    - pose proof (count_ok_number _ _ Hi) as [Hid _].
      rewrite clause_some_app, lstr_comma, lstr_insertion, DELETES_REGEX_eq.
      rewrite clause_miss; try assumption; try reflexivity.
      + f_equal. rewrite !length_app. simpl. rewrite !length_app. lia.
      + destruct pi; reflexivity.
    - cbn [clause app]. rewrite app_nil_r. reflexivity. }
  destruct del as [[dd pd]|].
  - pose proof (count_ok_number _ _ Hd) as [Hdd _].
    set (U := indent k ++ fd ++ lstr " file" ++ plural pf ++ lstr " changed"
              ++ clause " insertion" "(+)" ins ++ lstr ", ").
    assert (E : stats_line k fd pf ins (Some (dd, pd))
                = U ++ dd ++ lstr " deletion" ++ plural pd ++ lstr "(-)" ++ []).
    { unfold stats_line, U. unfold clause at 2. rewrite app_nil_r, <- !app_assoc.
      reflexivity. }
    rewrite E. apply (one_match_mid _ _ _ _ (length U) (length U + length dd));
      [|reflexivity|reflexivity].
    rewrite <- E. unfold captures, stats_line.
    rewrite DELETES_REGEX_eq.
    rewrite files_prefix_skip by (try assumption; try reflexivity;
                                  apply clause_run_zero; reflexivity).
    rewrite <- DELETES_REGEX_eq. rewrite Hskip by reflexivity.
    rewrite <- (app_nil_r (clause " deletion" "(-)" (Some (dd, pd)))).
    rewrite clause_some_app, lstr_comma, lstr_deletion, DELETES_REGEX_eq.
    rewrite clause_hit.
    + repeat f_equal; unfold U; rewrite !length_app; simpl; lia.
    + exact Hdd.
    + discriminate.
    + reflexivity.
    + apply forallb_is_dot. reflexivity.
  - unfold one_match, captures. unfold stats_line at 1.
    rewrite DELETES_REGEX_eq.
    rewrite files_prefix_skip by (try assumption; try reflexivity;
                                  apply clause_run_zero; reflexivity).
    rewrite <- DELETES_REGEX_eq. cbn [clause]. rewrite Nat.add_0_l.
    rewrite Hskip by reflexivity. reflexivity.
Qed.

Lemma count_stat (rx : regex) (l : str) (o : option (str * bool)) :
  count_ok o = true ->
  one_match rx l = match o with Some (d, _) => Ok d | None => Err (NoMatch rx l) end ->
  unwrap_or_default (parse_stat rx (Some l)) = count_value o.
Proof.
  intros Ho H. unfold parse_stat. rewrite H. destruct o as [[d b]|]; [|reflexivity].
  apply count_ok_number in Ho as [Hd Hle]. cbn [unwrap_or_default count_value].
  rewrite parse_u32_number by assumption. reflexivity.
Qed.

Lemma stats_line_stats (k : nat) (fd : str) (pf : bool) (ins del : option (str * bool)) :
  is_number fd = true -> (dec_value fd <= U32_MAX)%N ->
  count_ok ins = true -> count_ok del = true -> (ins <> None \/ del <> None) ->
  non_stats (stats_line k fd pf ins del) = false
  /\ unwrap_or_default (parse_stat FILES_REGEX (Some (stats_line k fd pf ins del))) = dec_value fd
  /\ unwrap_or_default (parse_stat INSERTS_REGEX (Some (stats_line k fd pf ins del)))
     = count_value ins
  /\ unwrap_or_default (parse_stat DELETES_REGEX (Some (stats_line k fd pf ins del)))
     = count_value del.
Proof.
  intros Hfd Hle Hi Hd Hsome.
  assert (Hf : one_match FILES_REGEX (stats_line k fd pf ins del) = Ok fd).
  { apply files_hit; [exact Hfd| |].
    - destruct Hsome as [Hs|Hs].
      + destruct ins as [[? ?]|]; [discriminate|congruence].
      + destruct del as [[? ?]|]; [|congruence].
        destruct (clause " insertion" "(+)" ins); discriminate.
    - apply forallb_is_dot. rewrite forallb_app, !clause_dots by (assumption || reflexivity).
      reflexivity. }
  unfold non_stats, parse_stat at 1 4. rewrite Hf. cbn [is_err andb unwrap_or_default].
  rewrite parse_u32_number by assumption.
  split; [reflexivity|]. split; [reflexivity|].
  split; apply count_stat; try assumption.
  - apply inserts_of_stats_line; assumption.
  - apply deletes_of_stats_line; assumption.
Qed.


Lemma no_nl_app (a b : str) : ~ In nl a -> ~ In nl b -> ~ In nl (a ++ b).
Proof. intros Ha Hb H. apply in_app_iff in H as [H|H]; contradiction. Qed.

Lemma indent_dots (k : nat) : forallb is_dot (indent k) = true.
Proof. induction k as [|k IH]; [reflexivity|]. exact IH. Qed.

Lemma stats_line_no_nl (k : nat) (fd : str) (pf : bool) (ins del : option (str * bool)) :
  is_number fd = true -> count_ok ins = true -> count_ok del = true ->
  ~ In nl (stats_line k fd pf ins del).
Proof.
  intros Hfd Hi Hd. apply forallb_is_dot. unfold stats_line.
  rewrite !forallb_app, indent_dots, forallb_is_dot_number by exact Hfd.
  rewrite !clause_dots by (assumption || reflexivity). destruct pf; reflexivity.
Qed.

Lemma no_space_lt_no_lt (e : str) :
  forallb (fun c => negb (Ascii.eqb c "<"%char)) e = true -> no_space_lt e.
Proof.
  intros H a b E. subst e. rewrite !forallb_app in H. simpl in H.
  rewrite !andb_false_r in H. discriminate.
Qed.

(** * Claims *)

Ltac decide_lines :=
  repeat match goal with
  | |- Forall _ _ => first [apply Forall_nil | apply Forall_cons]
  | |- ~ In nl _ => apply forallb_is_dot; vm_compute; reflexivity
  | |- _ = _ => vm_compute; reflexivity
  | |- _ <> [] => discriminate
  end.

(** C2: when the input ends while the parser is in the stats state, parse
    does not fail with UnexpectedEndOfInput.  It has no outcome at all, and
    the loop run for any number of turns never stops. *)
Theorem parse_stats_exhausted_diverges (hl al dl : str) (ms : list str)
  (h : str) (a : Author) (t : PrimitiveDateTime) :
  Forall (fun l => ~ In nl l) (hl :: al :: dl :: ms) ->
  parse_hash (Some hl) = Ok h -> parse_author (Some al) = Ok a ->
  parse_date (Some dl) = Ok t ->
  Forall (fun l => non_stats l = true) ms ->
  (forall r, ~ parse (join_lines (hl :: al :: dl :: ms)) r) /\
  (forall n, run_loop n (init (join_lines (hl :: al :: dl :: ms))) = None).
Proof.
  intros Hnl Hh Ha Hd Hms.
  assert (Hnone : forall r, ~ parse (join_lines (hl :: al :: dl :: ms)) r).
  { intros r. unfold parse, init. rewrite split_join by (exact Hnl || discriminate).
    rewrite (runs_step_iff _ (mkConfig State.Author (set_hash commit_default h) (al :: dl :: ms) []))
      by (cbn [step state commit lines result next]; rewrite Hh; reflexivity).
    rewrite (runs_step_iff _ (mkConfig State.Date (set_author (set_hash commit_default h) a) (dl :: ms) []))
      by (cbn [step state commit lines result next]; rewrite Ha; reflexivity).
    rewrite (runs_step_iff _ (mkConfig State.Stats (set_date (set_author (set_hash commit_default h) a) t) ms []))
      by (cbn [step state commit lines result next]; rewrite Hd; reflexivity).
    rewrite <- (app_nil_r ms), stats_skip by exact Hms.
    apply stats_exhausted_no_outcome. }
  split; [exact Hnone|].
  intros n. destruct (run_loop n _) as [r|] eqn:E; [|reflexivity].
  exfalso. apply (Hnone r). apply run_loop_sound with n. exact E.
Qed.

Lemma parse_stats_exhausted_diverges_witness :
  (forall r, ~ parse (join_lines [lstr "commit a"; lstr "Author: A <a@b>";
                                 lstr "Date: 2022-11-24 22:11:50"; []; lstr "  msg"]) r) /\
  (forall n, run_loop n (init (join_lines [lstr "commit a"; lstr "Author: A <a@b>";
                                 lstr "Date: 2022-11-24 22:11:50"; []; lstr "  msg"])) = None).
Proof.
  apply (parse_stats_exhausted_diverges _ _ _ _ (lstr "a") (Author_new (lstr "A") (lstr "a@b"))
           (mkDateTime 2022 11 24 22 11 50)); decide_lines.
Defined.

(** C3: parse starts in the hash state, not in Start.  When the first line
    of the input is blank, parse fails with NoMatch on that line.  This
    includes the empty input. *)
Theorem parse_blank_first_line_fails (input : str) :
  is_blank (hd [] (split_lines input)) = true ->
  forall r, parse input r <-> r = Err (NoMatch HASH_REGEX (hd [] (split_lines input))).
Proof.
  intros Hb. unfold parse, init.
  destruct (split_lines_cons input) as [l [ls E]]. rewrite E in *. simpl in Hb |- *.
  apply runs_fail_iff. cbn [step state commit lines result next parse_hash].
  rewrite blank_hash_nomatch by exact Hb. reflexivity.
Qed.

Lemma parse_blank_first_line_fails_witness :
  parse [] (Err (NoMatch HASH_REGEX [])).
Proof.
  refine (proj2 (parse_blank_first_line_fails [] _ (Err (NoMatch HASH_REGEX []))) _);
    reflexivity.
Defined.



(** C7: in the date state, a line "Date:" followed by text that is not a
    valid YYYY-MM-DD HH:MM:SS date fails with BadDate.  A line that does not
    start with "Date:" fails with NoMatch.  The two errors are distinct. *)
Theorem date_state_errors (cm : Commit) (ls : list str) (acc : list Commit) :
  (forall rest, rest <> [] -> ~ In nl rest -> parse_primitive (trim rest) = None ->
     forall r, runs_to (mkConfig State.Date cm ((lstr "Date:" ++ rest) :: ls) acc) r <->
               r = Err (BadDate (lstr "Date:" ++ rest))) /\
  (forall l, firstn 5 l <> lstr "Date:" ->
     forall r, runs_to (mkConfig State.Date cm (l :: ls) acc) r <->
               r = Err (NoMatch DATE_REGEX l)) /\
  (forall l1 rx l2, BadDate l1 <> NoMatch rx l2).
Proof.
  split; [|split].
  - intros rest Hne Hnl Hp. apply runs_fail_iff.
    cbn [step state commit lines result next parse_date].
    rewrite date_line_match, Hp by assumption. reflexivity.
  - intros l Hl. apply runs_fail_iff.
    cbn [step state commit lines result next parse_date].
    rewrite date_line_nomatch by exact Hl. reflexivity.
  - discriminate.
Qed.

Lemma date_state_errors_witness :
  (forall r, runs_to (mkConfig State.Date commit_default [lstr "Date:   not-a-date"] []) r
             <-> r = Err (BadDate (lstr "Date:   not-a-date"))) /\
  (forall r, runs_to (mkConfig State.Date commit_default [lstr "Date:   2022-13-24 22:11:50"] []) r
             <-> r = Err (BadDate (lstr "Date:   2022-13-24 22:11:50"))) /\
  (forall r, runs_to (mkConfig State.Date commit_default [lstr "  Refactor"] []) r
             <-> r = Err (NoMatch DATE_REGEX (lstr "  Refactor"))).
Proof.
  destruct (date_state_errors commit_default [] []) as [Hbad [Hno _]].
  split; [|split].
  - apply (Hbad (lstr "   not-a-date")); decide_lines.
  - apply (Hbad (lstr "   2022-13-24 22:11:50")); decide_lines.
  - apply Hno. vm_compute. discriminate.
Defined.

(** C9: when a stats pattern matches but its number does not parse as a
    u32, the stats state does not fail.  That field is set to 0 and the
    state moves on to Accept. *)
Theorem stats_overflow_defaults_zero (cm : Commit) (l : str) (ls : list str)
  (acc : list Commit) :
  (forall tok, one_match FILES_REGEX l = Ok tok -> parse_u32 tok = None ->
     step (mkConfig State.Stats cm (l :: ls) acc) =
     Continue (mkConfig State.Accept
                 (set_stats cm 0 (unwrap_or_default (parse_stat INSERTS_REGEX (Some l)))
                    (unwrap_or_default (parse_stat DELETES_REGEX (Some l)))) ls acc)) /\
  (forall tok, one_match INSERTS_REGEX l = Ok tok -> parse_u32 tok = None ->
     step (mkConfig State.Stats cm (l :: ls) acc) =
     Continue (mkConfig State.Accept
                 (set_stats cm (unwrap_or_default (parse_stat FILES_REGEX (Some l))) 0
                    (unwrap_or_default (parse_stat DELETES_REGEX (Some l)))) ls acc)) /\
  (forall tok, one_match DELETES_REGEX l = Ok tok -> parse_u32 tok = None ->
     step (mkConfig State.Stats cm (l :: ls) acc) =
     Continue (mkConfig State.Accept
                 (set_stats cm (unwrap_or_default (parse_stat FILES_REGEX (Some l)))
                    (unwrap_or_default (parse_stat INSERTS_REGEX (Some l))) 0) ls acc)).
Proof.
  split; [|split]; intros tok Hm Hp;
    cbn [step state commit lines result next parse_stat];
    rewrite Hm, Hp; cbn [is_err unwrap_or_default];
    rewrite ?andb_false_r; reflexivity.
Qed.

Lemma stats_overflow_defaults_zero_witness :
  let l := lstr " 4294967296 files changed, 4294967296 insertions(+), 4294967296 deletions(-)" in
  step (mkConfig State.Stats commit_default [l] []) =
  Continue (mkConfig State.Accept (set_stats commit_default 0 0 0) [] []).
Proof.
  intros l.
  destruct (stats_overflow_defaults_zero commit_default l [] []) as [Hf _].
  rewrite (Hf (lstr "4294967296")) by (vm_compute; reflexivity).
  vm_compute. reflexivity.
Defined.

(** C10: the stats state skips every line that matches no stats pattern,
    including the header lines of the next record.  So when a record has no
    stats line before the next record starts, parse succeeds with a single
    commit that takes the later stats line, and the later record is
    missing. *)
Theorem stats_state_skips_headers (hl1 al1 dl1 hl2 al2 dl2 sl : str)
  (ms1 ms2 bl : list str) (h1 h2 : str) (a1 a2 : Author) (t1 t2 : PrimitiveDateTime) :
  Forall (fun l => ~ In nl l)
         (hl1 :: al1 :: dl1 :: (ms1 ++ hl2 :: al2 :: dl2 :: ms2) ++ sl :: bl) ->
  parse_hash (Some hl1) = Ok h1 -> parse_author (Some al1) = Ok a1 ->
  parse_date (Some dl1) = Ok t1 ->
  parse_hash (Some hl2) = Ok h2 -> parse_author (Some al2) = Ok a2 ->
  parse_date (Some dl2) = Ok t2 ->
  Forall (fun l => non_stats l = true) (ms1 ++ hl2 :: al2 :: dl2 :: ms2) ->
  non_stats sl = false -> Forall (fun l => is_blank l = true) bl ->
  (forall cm l ls acc, non_stats l = true ->
     step (mkConfig State.Stats cm (l :: ls) acc) = Continue (mkConfig State.Stats cm ls acc)) /\
  (forall r, parse (join_lines (hl1 :: al1 :: dl1 :: (ms1 ++ hl2 :: al2 :: dl2 :: ms2) ++ sl :: bl)) r
   <-> r = Ok [mkCommit h1 a1 t1 (unwrap_or_default (parse_stat FILES_REGEX (Some sl)))
                 (unwrap_or_default (parse_stat INSERTS_REGEX (Some sl)))
                 (unwrap_or_default (parse_stat DELETES_REGEX (Some sl)))]).
Proof.
  intros Hnl Hh1 Ha1 Hd1 _ _ _ Hms Hsl Hbl. split.
  - intros cm l ls acc Hl. unfold non_stats in Hl.
    cbn [step state commit lines result next]. rewrite Hl. reflexivity.
  - apply parse_one_record; assumption.
Qed.

Lemma stats_state_skips_headers_witness :
  parse (join_lines
    [lstr "commit abc123"; lstr "Author: Jon <jon@email.ca>"; lstr "Date:   2022-11-24 22:11:50";
     []; lstr "  Do things"; [];
     lstr "commit def456"; lstr "Author: Not Jon <notjon@email.org>";
     lstr "Date:   2022-11-25 09:30:00"; []; lstr "  More things"; [];
     lstr "  11 files changed, 22 insertions(+), 33 deletions(-)"; []])
    (Ok [mkCommit (lstr "abc123") (Author_new (lstr "Jon") (lstr "jon@email.ca"))
           (mkDateTime 2022 11 24 22 11 50) 11 22 33]).
Proof.
  refine (proj2 (proj2 (stats_state_skips_headers _ _ _ _ _ _ _
           [[]; lstr "  Do things"; []] [[]; lstr "  More things"; []] [[]]
           (lstr "abc123") (lstr "def456") (Author_new (lstr "Jon") (lstr "jon@email.ca"))
           (Author_new (lstr "Not Jon") (lstr "notjon@email.org"))
           (mkDateTime 2022 11 24 22 11 50) (mkDateTime 2022 11 25 9 30 0)
           _ _ _ _ _ _ _ _ _ _) _) eq_refl); decide_lines.
Defined.

(** C1 (amended): an input holding one record in git's format parses to
    exactly one commit carrying the values written in it.  The record is a
    hash line, an author line, a date line whose value parses, message lines
    none of which matches a stats pattern, and git's summary line
    "<k blanks><n> file(s) changed[, <i> insertion(s)(+)][, <d> deletion(s)(-)]"
    with at least one count clause after the files clause and every number
    within u32.  Blank lines may follow.  An absent clause gives 0. *)
Theorem parse_single_record (h n e d : str) (t : PrimitiveDateTime) (ms bl : list str)
  (k : nat) (fd : str) (pf : bool) (ins del : option (str * bool)) :
  h <> [] -> ~ In nl h -> n <> [] -> ~ In nl n -> e <> [] -> ~ In nl e -> no_space_lt e ->
  ~ In nl d -> parse_primitive (trim d) = Some t ->
  Forall (fun l => ~ In nl l /\ non_stats l = true) ms ->
  Forall (fun l => ~ In nl l /\ is_blank l = true) bl ->
  is_number fd = true -> (dec_value fd <= U32_MAX)%N ->
  count_ok ins = true -> count_ok del = true -> ins <> None \/ del <> None ->
  forall r,
    parse (join_lines ((lstr "commit " ++ h)
                       :: (lstr "Author: " ++ n ++ lstr " <" ++ e ++ lstr ">")
                       :: (lstr "Date:" ++ d)
                       :: ms ++ stats_line k fd pf ins del :: bl)) r
    <-> r = Ok [mkCommit h (Author_new n e) t (dec_value fd) (count_value ins)
                  (count_value del)].
Proof.
  intros Hh Hhn Hn Hnn He Hen Hlt Hdn Hd Hms Hbl Hfd Hle Hi Hdl Hsome r.
  assert (Hdne : d <> []) by (intros ->; vm_compute in Hd; discriminate).
  destruct (stats_line_stats k fd pf ins del Hfd Hle Hi Hdl Hsome) as [Hs [Ef [Ei Ed]]].
  rewrite <- Ef, <- Ei, <- Ed.
  apply parse_one_record.
  - repeat constructor.
    + apply no_nl_app; [apply forallb_is_dot; reflexivity|exact Hhn].
    + repeat (apply no_nl_app; [apply forallb_is_dot; reflexivity|]).
      apply no_nl_app; [exact Hnn|].
      apply no_nl_app; [apply forallb_is_dot; reflexivity|].
      apply no_nl_app; [exact Hen|apply forallb_is_dot; reflexivity].
    + apply no_nl_app; [apply forallb_is_dot; reflexivity|exact Hdn].
    + apply Forall_app. split.
      * eapply Forall_impl; [|exact Hms]. intros l [Hl _]. exact Hl.
      * constructor; [apply stats_line_no_nl; assumption|].
        eapply Forall_impl; [|exact Hbl]. intros l [Hl _]. exact Hl.
  - cbn [parse_hash]. apply hash_line_match; assumption.
  - cbn [parse_author]. rewrite author_line_match by assumption. reflexivity.
  - cbn [parse_date]. rewrite date_line_match, Hd by assumption. reflexivity.
  - eapply Forall_impl; [|exact Hms]. intros l [_ Hl]. exact Hl.
  - exact Hs.
  - eapply Forall_impl; [|exact Hbl]. intros l [_ Hl]. exact Hl.
Qed.

Lemma parse_single_record_witness :
  parse (join_lines [lstr "commit a75c00d";
                     lstr "Author: Jonathan Neufeld <jneufeld@alumni.ubc.ca>";
                     lstr "Date:   2022-11-24 22:11:50"; []; lstr "    Refactor parser"; [];
                     lstr " 1 file changed, 43 insertions(+), 62 deletions(-)"; []])
    (Ok [mkCommit (lstr "a75c00d")
           (Author_new (lstr "Jonathan Neufeld") (lstr "jneufeld@alumni.ubc.ca"))
           (mkDateTime 2022 11 24 22 11 50) 1 43 62]).
Proof.
  refine (proj2 (parse_single_record (lstr "a75c00d") (lstr "Jonathan Neufeld")
            (lstr "jneufeld@alumni.ubc.ca") (lstr "   2022-11-24 22:11:50")
            (mkDateTime 2022 11 24 22 11 50) [[]; lstr "    Refactor parser"; []] [[]]
            1 (lstr "1") false (Some (lstr "43", true)) (Some (lstr "62", true))
            _ _ _ _ _ _ _ _ _ _ _ _ _ _ _ _ _) eq_refl).
  all: try discriminate.
  all: try (apply forallb_is_dot; reflexivity).
  all: try (apply no_space_lt_no_lt; reflexivity).
  all: try (left; discriminate).
  all: try (repeat constructor; (apply forallb_is_dot; reflexivity)).
  all: try (vm_compute; reflexivity).
  all: try (unfold U32_MAX; vm_compute; discriminate).
Defined.

(** A message line that mentions a file count is taken for the stats line;
    the real stats line then reaches the hash state and fails. *)
Lemma parse_single_record_counterexample :
  parse (join_lines [lstr "commit a75c00d";
                     lstr "Author: Jonathan Neufeld <jneufeld@alumni.ubc.ca>";
                     lstr "Date:   2022-11-24 22:11:50"; [];
                     lstr "    Mention 2 files changed here"; [];
                     lstr " 1 file changed, 43 insertions(+), 62 deletions(-)"])
    (Err (NoMatch HASH_REGEX (lstr " 1 file changed, 43 insertions(+), 62 deletions(-)")))
  /\ (forall cs,
        ~ parse (join_lines [lstr "commit a75c00d";
                             lstr "Author: Jonathan Neufeld <jneufeld@alumni.ubc.ca>";
                             lstr "Date:   2022-11-24 22:11:50"; [];
                             lstr "    Mention 2 files changed here"; [];
                             lstr " 1 file changed, 43 insertions(+), 62 deletions(-)"])
            (Ok cs)).
Proof.
  assert (H : run_loop 20 (init (join_lines
                [lstr "commit a75c00d"; lstr "Author: Jonathan Neufeld <jneufeld@alumni.ubc.ca>";
                 lstr "Date:   2022-11-24 22:11:50"; []; lstr "    Mention 2 files changed here";
                 []; lstr " 1 file changed, 43 insertions(+), 62 deletions(-)"]))
              = Some (Err (NoMatch HASH_REGEX
                             (lstr " 1 file changed, 43 insertions(+), 62 deletions(-)"))))
    by (vm_compute; reflexivity).
  split.
  - apply (run_loop_sound 20). exact H.
  - intros cs Hp. apply (parse_of_run _ _ _ H) in Hp. discriminate.
Qed.

(** C4: every commit of a successful parse has a non-empty hash, a non-empty
    author name and email, and a valid date.  Its stats are naturals within
    u32.  The hash lines of the returned commits appear, in the same order,
    among the lines of the input. *)
Theorem parse_commits_ok (input : str) (cs : list Commit) :
  parse input (Ok cs) -> Forall commit_ok cs /\ subseq (map hash_line cs) (split_lines input).
Proof.
  intros H. apply (parse_inv_result (split_lines input) (init input) (Ok cs) H); [|reflexivity].
  exists []. split; [reflexivity|]. split; [constructor|]. constructor.
Qed.

Lemma parse_commits_ok_witness :
  Forall commit_ok
    [mkCommit (lstr "abc123") (Author_new (lstr "Jon") (lstr "jon@email.ca"))
       (mkDateTime 2022 11 24 22 11 50) 1 0 2;
     mkCommit (lstr "def456") (Author_new (lstr "Not Jon") (lstr "notjon@email.org"))
       (mkDateTime 2022 11 24 22 11 50) 11 22 33]
  /\ subseq [lstr "commit abc123"; lstr "commit def456"]
       (split_lines (text ["commit abc123"; "Author: Jon <jon@email.ca>";
                           "Date:   2022-11-24 22:11:50"; ""; "  Do things"; "";
                           "  1 file changed, 2 deletions(-)"; "  ";
                           "commit def456"; "Author: Not Jon <notjon@email.org>";
                           "Date:   2022-11-24 22:11:50"; ""; "  More things"; "";
                           "  11 file changed, 22 insertions(+), 33 deletions(-)"]%string)).
Proof.
  apply parse_commits_ok. apply (run_loop_sound 100). vm_compute. reflexivity.
Defined.






